(** * GameProject: subtract square and chopsticks

    A shallow embedding of [games.py]: the two concrete game states
    ([SSGameCurrentState], [CSGameCurrentState]), the two game wrappers
    ([SubtractSquareGame], [ChopsticksGame]) and the Python builtins they
    rely on, followed by the properties of the specification.

    Python integers are unbounded, hence [Z]; Python lists are [list];
    Python strings are [string]; an exception is a [Raise] in the small
    error monad of module [Py]. *)

From Equations Require Import Equations.
From Stdlib Require Import ZArith List String Ascii Bool Lia.
From Stdlib Require Import Permutation Sorted OrderedTypeEx.
From Stdlib Require Decimal DecimalString DecimalZ.
Import ListNotations.
Open Scope Z_scope.

(* ================================================================== *)
(** ** Python builtins used by the program                             *)
(* ================================================================== *)

Module Py.

Inductive exn : Type := ValueError | IndexError.

Inductive result (A : Type) : Type :=
| Ok (a : A)
| Raise (e : exn).
Arguments Ok {A} a.
Arguments Raise {A} e.

Definition bind {A B} (m : result A) (k : A -> result B) : result B :=
  match m with
  | Ok a => k a
  | Raise e => Raise e
  end.

(** [l[i]] for a non-negative literal index: [IndexError] out of range. *)
Definition getitem {A} (l : list A) (i : nat) : result A :=
  match nth_error l i with
  | Some x => Ok x
  | None => Raise IndexError
  end.

(** [x in l], with [eqb] the [==] of the element type. *)
Definition contains {A} (eqb : A -> A -> bool) (x : A) (l : list A) : bool :=
  existsb (eqb x) l.

(** [l1 == l2] on lists, element by element. *)
Fixpoint list_eqb {A} (eqb : A -> A -> bool) (l1 l2 : list A) : bool :=
  match l1, l2 with
  | [], [] => true
  | x :: l1', y :: l2' => eqb x y && list_eqb eqb l1' l2'
  | _, _ => false
  end.

(** [sorted(l)] on a list of strings.  Python orders strings
    lexicographically by code point, which is [String.leb]; equal strings
    are indistinguishable, so any sorting algorithm yields the list that
    Python's stable sort yields.  Insertion sort is used here. *)
Fixpoint insert (x : string) (l : list string) : list string :=
  match l with
  | [] => [x]
  | y :: l' => if String.leb x y then x :: y :: l' else y :: insert x l'
  end.

Definition sorted (l : list string) : list string :=
  fold_right insert [] l.

(** *** Strings as text

    A [string] holds bytes: the UTF-8 encoding of the Python string.
    [utf8_decode] gives back the code points.  A byte sequence that is not
    UTF-8 is no Python string; it is decoded to U+FFFD, byte by byte. *)
Definition is_continuation (b : ascii) : bool :=
  let n := N_of_ascii b in ((128 <=? n) && (n <=? 191))%N.

Definition low6 (b : ascii) : N := (N_of_ascii b - 128)%N.

Definition replacement : N := 65533%N.

Fixpoint utf8_decode (l : list ascii) : list N :=
  match l with
  | [] => []
  | b0 :: l1 =>
      let n0 := N_of_ascii b0 in
      if (n0 <? 128)%N then n0 :: utf8_decode l1
      else
        match l1 with
        | b1 :: l2 =>
            if negb (is_continuation b1) then replacement :: utf8_decode l1
            else if ((194 <=? n0) && (n0 <=? 223))%N
            then ((n0 - 192) * 64 + low6 b1)%N :: utf8_decode l2
            else
              match l2 with
              | b2 :: l3 =>
                  let cp3 :=
                    ((n0 - 224) * 4096 + low6 b1 * 64 + low6 b2)%N in
                  if negb (is_continuation b2)
                  then replacement :: utf8_decode l1
                  else if ((224 <=? n0) && (n0 <=? 239))%N
                  then
                    if ((2048 <=? cp3)
                        && negb ((55296 <=? cp3) && (cp3 <=? 57343)))%N
                    then cp3 :: utf8_decode l3
                    else replacement :: utf8_decode l1
                  else
                    match l3 with
                    | b3 :: l4 =>
                        let cp4 :=
                          ((n0 - 240) * 262144 + low6 b1 * 4096
                           + low6 b2 * 64 + low6 b3)%N in
                        if (is_continuation b3
                            && ((240 <=? n0) && (n0 <=? 244))
                            && ((65536 <=? cp4) && (cp4 <=? 1114111)))%N
                        then cp4 :: utf8_decode l4
                        else replacement :: utf8_decode l1
                    | [] => replacement :: utf8_decode l1
                    end
              | [] => replacement :: utf8_decode l1
              end
        | [] => replacement :: utf8_decode l1
        end
  end.

(** *** [int(s)] on a string, base 10

    As CPython 3.11 does it.  Every code point from 127 on is first
    replaced: a Unicode blank by a space, a Unicode decimal digit by the
    ASCII digit of its value, anything else by a question mark (CPython
    stops at the first such code point; the parse fails either way).  Then
    surrounding white space (tab, line feed, vertical tab, form feed,
    carriage return, space) is dropped, one sign is allowed, and decimal
    digits follow, where single underscores may separate digits.  Anything
    else is a [ValueError], and so is a numeral of more than
    [int_max_str_digits] digits. *)

(** The code points from 127 on for which [str.isspace] holds (Unicode
    14.0, the tables of CPython 3.11). *)
Definition unicode_space (cp : N) : bool :=
  ((cp =? 133) || (cp =? 160) || (cp =? 5760)
   || ((8192 <=? cp) && (cp <=? 8202))
   || (cp =? 8232) || (cp =? 8233) || (cp =? 8239) || (cp =? 8287)
   || (cp =? 12288))%N.

(** The digit zero of each script with decimal digits outside ASCII; the
    digits 1 to 9 of the script follow it (Unicode 14.0). *)
Definition unicode_zeros : list N :=
  [1632; 1776; 1984; 2406; 2534; 2662; 2790; 2918; 3046; 3174; 3302; 3430;
   3558; 3664; 3792; 3872; 4160; 4240; 6112; 6160; 6470; 6608; 6784; 6800;
   6992; 7088; 7232; 7248; 42528; 43216; 43264; 43472; 43504; 43600; 44016;
   65296; 66720; 68912; 69734; 69872; 69942; 70096; 70384; 70736; 70864;
   71248; 71360; 71472; 71904; 72016; 72784; 73040; 73120; 92768; 92864;
   93008; 120782; 120792; 120802; 120812; 120822; 123200; 123632; 125264;
   130032]%N.

Definition unicode_decimal (cp : N) : option N :=
  match find (fun z => (z <=? cp) && (cp <? z + 10))%N unicode_zeros with
  | Some z => Some (cp - z)%N
  | None => None
  end.

(** What the parser reads in place of a code point. *)
Definition to_ascii (cp : N) : ascii :=
  if (cp <? 127)%N then ascii_of_N cp
  else if unicode_space cp then " "%char
  else match unicode_decimal cp with
       | Some d => ascii_of_N (48 + d)
       | None => "?"%char
       end.

Definition is_space (c : ascii) : bool :=
  let n := N_of_ascii c in
  (((9 <=? n) && (n <=? 13)) || (n =? 32))%N.

Definition digit_of (c : ascii) : option Z :=
  let n := N_of_ascii c in
  if ((48 <=? n) && (n <=? 57))%N then Some (Z.of_N n - 48) else None.

Fixpoint lstrip (l : list ascii) : list ascii :=
  match l with
  | c :: l' => if is_space c then lstrip l' else l
  | [] => []
  end.

Definition strip (l : list ascii) : list ascii :=
  rev (lstrip (rev (lstrip l))).

(** The digits after the first one; [us] tells that the previous
    character was an underscore. *)
Fixpoint digits_from (acc : Z) (us : bool) (l : list ascii) : option Z :=
  match l with
  | [] => if us then None else Some acc
  | c :: l' =>
      if Ascii.eqb c "_"%char
      then if us then None else digits_from acc true l'
      else match digit_of c with
           | Some d => digits_from (10 * acc + d) false l'
           | None => None
           end
  end.

Definition unsigned_of (l : list ascii) : option Z :=
  match l with
  | c :: l' =>
      match digit_of c with
      | Some d => digits_from d false l'
      | None => None
      end
  | [] => None
  end.

(** [sys.int_max_str_digits], at its default; 0 would switch the limit
    off. *)
Definition int_max_str_digits : N := 4300%N.

Definition over_limit (digits : N) : bool :=
  ((0 <? int_max_str_digits) && (int_max_str_digits <? digits))%N.

(** The digits of a numeral, leading zeros included, underscores not. *)
Definition count_digits (l : list ascii) : N :=
  N.of_nat
    (List.length
       (filter (fun c => match digit_of c with Some _ => true | None => false end)
               l)).

(** The parse of the replaced text. *)
Definition int_of_ascii (buffer : list ascii) : result Z :=
  let l := strip buffer in
  let '(neg, body) :=
    match l with
    | c :: l' =>
        if Ascii.eqb c "-"%char then (true, l')
        else if Ascii.eqb c "+"%char then (false, l')
        else (false, l)
    | [] => (false, l)
    end in
  match unsigned_of body with
  | Some v =>
      if over_limit (count_digits body) then Raise ValueError
      else Ok (if neg then - v else v)
  | None => Raise ValueError
  end.

Definition int_of_str (s : string) : result Z :=
  int_of_ascii (map to_ascii (utf8_decode (list_ascii_of_string s))).

(** An argument of type [Union[str, int]]. *)
Inductive str_or_int : Type :=
| PStr (s : string)
| PInt (z : Z).

(** [int(x)] for such an argument. *)
Definition int (x : str_or_int) : result Z :=
  match x with
  | PStr s => int_of_str s
  | PInt z => Ok z
  end.

(** [str(z)] on an integer: its decimal text, with a minus sign in front
    of a negative one, and a [ValueError] when the text would have more
    than [int_max_str_digits] digits. *)
Definition str_of_int (z : Z) : result string :=
  let d := Z.to_int z in
  let digits :=
    match d with
    | Decimal.Pos u | Decimal.Neg u =>
        String.length (DecimalString.NilZero.string_of_uint u)
    end in
  if over_limit (N.of_nat digits) then Raise ValueError
  else Ok (DecimalString.NilZero.string_of_int d).

(** [l[i]] for an integer index: a negative index counts from the end. *)
Definition index {A} (l : list A) (i : Z) : result A :=
  let n := Z.of_nat (List.length l) in
  let j := if i <? 0 then i + n else i in
  if (0 <=? j) && (j <? n) then getitem l (Z.to_nat j) else Raise IndexError.

(** [random.randint(a, b)]: some integer of the closed range, and a
    [ValueError] when the range is empty. *)
Inductive randint (a b : Z) : result Z -> Prop :=
| randint_pick (r : Z) : a <= r <= b -> randint a b (Ok r)
| randint_empty : b < a -> randint a b (Raise ValueError).

End Py.

Import Py.

Notation "x <- m ;; k" := (Py.bind m (fun x => k))
  (at level 61, m at next level, right associativity).

(* ================================================================== *)
(** ** The state records                                               *)
(* ================================================================== *)

(** Fields of [SSGameCurrentState]. *)
Module SS.
Record state : Type := mk {
  is_p1_turn : bool;
  current_val : Z;
  possible_moves_list : list Z
}.
End SS.

(** Fields of [CSGameCurrentState]: [current_value] holds the hands in the
    order p1 left, p1 right, p2 left, p2 right. *)
Module CS.
Record state : Type := mk {
  is_p1_turn : bool;
  current_value : list Z;
  possible_moves_p1 : list string;
  possible_moves_p2 : list string
}.
End CS.

(** What the [other: Any] of an [__eq__] may be: a state of either game,
    or something else (the doctests pass a string). *)
Inductive Any : Type :=
| SSObj (s : SS.state)
| CSObj (s : CS.state)
| StrObj (s : string).

(** [GameCurrentState.get_current_player_name]. *)
Definition player_name (is_p1_turn : bool) : string :=
  if is_p1_turn then "p1"%string else "p2"%string.

(* ================================================================== *)
(** ** [SSGameCurrentState]                                            *)
(* ================================================================== *)

Module SSGameCurrentState.

(** The [while i*i <= self.current_val] loop of [get_possible_moves]:
    [i] counts up by one, so the distance from [i] to the integer square
    root of [current_val] decreases. *)
Equations? squares_loop (current_val i : Z) (possible_moves : list Z)
  : list Z by wf (Z.to_nat (Z.sqrt current_val + 1 - i)) lt :=
  squares_loop current_val i possible_moves with
    Z_le_gt_dec (i * i) current_val => {
    | left _ := squares_loop current_val (i + 1) (possible_moves ++ [i * i]);
    | right _ := possible_moves }.
Proof.
  assert (i <= Z.sqrt current_val).
  { destruct (Z_le_gt_dec i 0) as [Hi | Hi].
    - pose proof (Z.sqrt_nonneg current_val). lia.
    - apply Z.sqrt_le_square; nia. }
  lia.
Qed.

Import SS.

Definition get_possible_moves (self : state) : list Z :=
  squares_loop (current_val self) 1 [].

Definition __init__ (is_p1_turn : bool) (current_val : str_or_int)
  : result state :=
  v <- Py.int current_val ;;
  let self := mk is_p1_turn v [] in
  Ok (mk is_p1_turn v (get_possible_moves self)).

Definition __eq__ (self : state) (other : Any) : bool :=
  match other with
  | SSObj other =>
      Bool.eqb (is_p1_turn self) (is_p1_turn other)
      && (current_val self =? current_val other)
      && list_eqb Z.eqb (possible_moves_list self) (possible_moves_list other)
  | _ => false
  end.

Definition is_valid_move (self : state) (move_to_make : Z) : bool :=
  contains Z.eqb move_to_make (possible_moves_list self).

Definition make_move (self : state) (move_to_make : Z) : state :=
  let copied := self in
  let copied := mk (negb (is_p1_turn copied)) (current_val copied)
                   (possible_moves_list copied) in
  let copied := mk (is_p1_turn copied) (current_val copied - move_to_make)
                   (possible_moves_list copied) in
  mk (is_p1_turn copied) (current_val copied) (get_possible_moves copied).

Definition __str__ (self : state) : result string :=
  value <- str_of_int (current_val self) ;;
  Ok (player_name (is_p1_turn self)
      ++ "'s turn to move; the current value is "
      ++ value ++ ".")%string.

End SSGameCurrentState.

(* ================================================================== *)
(** ** [CSGameCurrentState]                                            *)
(* ================================================================== *)

Module CSGameCurrentState.
Import CS.

Definition __init__ (is_p1_turn : bool) : state :=
  mk is_p1_turn [1; 1; 1; 1]
     ["ll"; "lr"; "rl"; "rr"]%string ["ll"; "lr"; "rl"; "rr"]%string.

Definition __eq__ (self : state) (other : Any) : bool :=
  match other with
  | CSObj other =>
      Bool.eqb (is_p1_turn self) (is_p1_turn other)
      && list_eqb Z.eqb (current_value self) (current_value other)
      && list_eqb String.eqb (sorted (possible_moves_p1 self))
                             (sorted (possible_moves_p1 other))
      && list_eqb String.eqb (sorted (possible_moves_p2 self))
                             (sorted (possible_moves_p2 other))
  | _ => false
  end.

Definition get_current_player_name (self : state) : string :=
  player_name (is_p1_turn self).

(** [x != 0] on integers. *)
Definition nz (x : Z) : bool := negb (x =? 0).

Definition get_possible_moves (self : state) : result (list string) :=
  p1_l <- getitem (current_value self) 0 ;;
  p1_r <- getitem (current_value self) 1 ;;
  p2_l <- getitem (current_value self) 2 ;;
  p2_r <- getitem (current_value self) 3 ;;
  Ok (if String.eqb (get_current_player_name self) "p1"
      then
        if nz p1_l && nz p1_r then
          if nz p2_l && nz p2_r then ["ll"; "lr"; "rl"; "rr"]
          else if (p2_l =? 0)%Z && nz p2_r then ["lr"; "rr"]
          else ["ll"; "rl"]
        else if (p1_l =? 0)%Z && nz p1_r then
          if nz p2_l && nz p2_r then ["rl"; "rr"]
          else if (p2_l =? 0)%Z && nz p2_r then ["rr"]
          else ["rl"]
        else if nz p1_l && (p1_r =? 0)%Z then
          if nz p2_l && nz p2_r then ["ll"; "lr"]
          else if (p2_l =? 0)%Z && nz p2_r then ["lr"]
          else ["ll"]
        else []
      else
        if nz p2_l && nz p2_r then
          if nz p1_l && nz p1_r then ["ll"; "lr"; "rl"; "rr"]
          else if (p1_l =? 0)%Z && nz p1_r then ["lr"; "rr"]
          else ["ll"; "rl"]
        else if (p2_l =? 0)%Z && nz p2_r then
          if nz p1_l && nz p1_r then ["rl"; "rr"]
          else if (p1_l =? 0)%Z && nz p1_r then ["rr"]
          else ["rl"]
        else if nz p2_l && (p2_r =? 0)%Z then
          if nz p1_l && nz p1_r then ["ll"; "lr"]
          else if (p1_l =? 0)%Z && nz p1_r then ["lr"]
          else ["ll"]
        else [])%string.

Definition is_valid_move (self : state) (move_to_make : string)
  : result bool :=
  moves <- get_possible_moves self ;;
  Ok (contains String.eqb move_to_make moves).

Definition make_move (self : state) (move_to_make : string)
  : result state :=
  let copied := self in
  p1_l <- getitem (current_value copied) 0 ;;
  p1_r <- getitem (current_value copied) 1 ;;
  p2_l <- getitem (current_value copied) 2 ;;
  p2_r <- getitem (current_value copied) 3 ;;
  let new_value :=
    if String.eqb (get_current_player_name copied) "p1" then
      if String.eqb move_to_make "ll" then
        [p1_l; p1_r; (p1_l + p2_l) mod 5; p2_r]
      else if String.eqb move_to_make "lr" then
        [p1_l; p1_r; p2_l; (p1_l + p2_r) mod 5]
      else if String.eqb move_to_make "rl" then
        [p1_l; p1_r; (p1_r + p2_l) mod 5; p2_r]
      else
        [p1_l; p1_r; p2_l; (p1_r + p2_r) mod 5]
    else
      if String.eqb move_to_make "ll" then
        [(p2_l + p1_l) mod 5; p1_r; p2_l; p2_r]
      else if String.eqb move_to_make "lr" then
        [p1_l; (p2_l + p1_r) mod 5; p2_l; p2_r]
      else if String.eqb move_to_make "rl" then
        [(p2_r + p1_l) mod 5; p1_r; p2_l; p2_r]
      else
        [p1_l; (p2_r + p1_r) mod 5; p2_l; p2_r] in
  let copied := mk (is_p1_turn copied) new_value
                   (possible_moves_p1 copied) (possible_moves_p2 copied) in
  let copied := mk (negb (is_p1_turn copied)) (current_value copied)
                   (possible_moves_p1 copied) (possible_moves_p2 copied) in
  moves <- get_possible_moves copied ;;
  Ok (if String.eqb (get_current_player_name copied) "p1"
      then mk (is_p1_turn copied) (current_value copied)
              moves (possible_moves_p2 copied)
      else mk (is_p1_turn copied) (current_value copied)
              (possible_moves_p1 copied) moves).

Definition __str__ (self : state) : result string :=
  p1_l <- getitem (current_value self) 0 ;;
  p1_r <- getitem (current_value self) 1 ;;
  p2_l <- getitem (current_value self) 2 ;;
  p2_r <- getitem (current_value self) 3 ;;
  s1_l <- str_of_int p1_l ;;
  s1_r <- str_of_int p1_r ;;
  s2_l <- str_of_int p2_l ;;
  s2_r <- str_of_int p2_r ;;
  Ok (if is_p1_turn self
      then "Player 1 [Current]: " ++ s1_l ++ "-" ++ s1_r
           ++ "; Player 2: " ++ s2_l ++ "-" ++ s2_r
      else "Player 1: " ++ s1_l ++ "-" ++ s1_r
           ++ "; Player 2 [Current]: " ++ s2_l ++ "-" ++ s2_r)%string.

End CSGameCurrentState.

(* ================================================================== *)
(** ** The game wrappers                                               *)
(* ================================================================== *)

(** [Game.is_over], on a state of either game. *)
Definition is_over (current_s : SS.state + CS.state) : result bool :=
  match current_s with
  | inl s => Ok (list_eqb Z.eqb (SSGameCurrentState.get_possible_moves s) [])
  | inr s =>
      moves <- CSGameCurrentState.get_possible_moves s ;;
      Ok (list_eqb String.eqb moves [])
  end.

Module SubtractSquareGame.

Record game : Type := mk {
  is_p1_turn : bool;
  current_state : SS.state
}.

(** [__init__], with the answer to [initial_input]'s prompt as an
    argument. *)
Definition __init__ (is_p1_turn : bool) (starting_num : string)
  : result game :=
  s <- SSGameCurrentState.__init__ is_p1_turn (PStr starting_num) ;;
  Ok (mk is_p1_turn s).

Definition is_winner (self : game) (current_player : string) : bool :=
  let current_player_playing :=
    if SS.is_p1_turn (current_state self) then "p1"%string
    else "p2"%string in
  if list_eqb Z.eqb (SS.possible_moves_list (current_state self)) [] then
    if negb (String.eqb current_player current_player_playing) then true
    else false
  else false.

(** [str_to_move] returns its result together with the game it leaves
    behind: the method assigns to no attribute of [self]. *)
Definition str_to_move (self : game) (move : string)
  : result Z * game :=
  (int_of_str move, self).

End SubtractSquareGame.

Module ChopsticksGame.

Record game : Type := mk {
  is_p1_turn : bool;
  current_state : CS.state
}.

Definition __init__ (is_p1_turn : bool) : game :=
  mk is_p1_turn (CSGameCurrentState.__init__ is_p1_turn).

Definition is_winner (self : game) (current_player : string)
  : result bool :=
  let current_player_playing :=
    if CS.is_p1_turn (current_state self) then "p1"%string
    else "p2"%string in
  moves <- CSGameCurrentState.get_possible_moves (current_state self) ;;
  Ok (if list_eqb String.eqb moves [] then
        if negb (String.eqb current_player current_player_playing) then true
        else false
      else false).

Definition unwanted : list ascii := [" "; "-"; "_"; "+"; "/"]%char.

(** The [for char in move] loop of [str_to_move], with [new_move] the
    string built so far. *)
Fixpoint str_to_move_loop (new_move move : string) : string :=
  match move with
  | EmptyString => new_move
  | String char move' =>
      if contains Ascii.eqb char unwanted
      then str_to_move_loop new_move move'
      else str_to_move_loop (new_move ++ String char EmptyString) move'
  end.

Definition str_to_move (self : game) (move : string) : string :=
  str_to_move_loop EmptyString move.

End ChopsticksGame.

(* ================================================================== *)
(** ** The strategies                                                  *)
(* ================================================================== *)

Module Strategy.

(** [interactive_strategy], with the line that [input] reads as an
    argument, for a game of either kind. *)
Definition interactive_strategy_ss (game : SubtractSquareGame.game)
  (move : string) : result Z :=
  fst (SubtractSquareGame.str_to_move game move).

Definition interactive_strategy_cs (game : ChopsticksGame.game)
  (move : string) : string :=
  ChopsticksGame.str_to_move game move.

(** The last two lines of [current_strategy]: an index drawn by
    [randint] and the move at that index.  The draw is not a function of
    the game, so the strategy is a relation between the list of legal
    moves and what the call may produce. *)
Inductive choose {A} (legal_moves : list A) : result A -> Prop :=
| choose_draw (r : result Z) :
    randint 0 (Z.of_nat (List.length legal_moves) - 1) r ->
    choose legal_moves (i <- r ;; index legal_moves i).

Definition current_strategy_ss (game : SubtractSquareGame.game)
  (out : result Z) : Prop :=
  choose (SSGameCurrentState.get_possible_moves
            (SubtractSquareGame.current_state game)) out.

Definition current_strategy_cs (game : ChopsticksGame.game)
  (out : result string) : Prop :=
  match CSGameCurrentState.get_possible_moves
          (ChopsticksGame.current_state game) with
  | Ok legal_moves => choose legal_moves out
  | Raise e => out = Raise e
  end.

End Strategy.

(* ================================================================== *)
(** ** Notions of the specification                                    *)
(* ================================================================== *)

(** *** Subtract square *)

(** The perfect squares [k * k <= value] for [k = 1, 2, ...], ascending. *)
Definition squares_upto (value : Z) : list Z :=
  map (fun k => k * k) (map Z.of_nat (seq 1 (Z.to_nat (Z.sqrt value)))).

(** One legal move: the driver validates with [is_valid_move] and then
    applies [make_move]. *)
Definition ss_step (s s' : SS.state) : Prop :=
  exists m, SSGameCurrentState.is_valid_move s m = true
            /\ s' = SSGameCurrentState.make_move s m.

(** A sequence of moves, each validated in the state it is applied to;
    [None] as soon as one of them is not legal. *)
Fixpoint ss_play (s : SS.state) (moves : list Z) : option SS.state :=
  match moves with
  | [] => Some s
  | m :: moves' =>
      if SSGameCurrentState.is_valid_move s m
      then ss_play (SSGameCurrentState.make_move s m) moves'
      else None
  end.

(** What the constructor establishes and [make_move] keeps: the value is
    not negative and the cached list is the recomputed one. *)
Definition ss_consistent (s : SS.state) : Prop :=
  0 <= SS.current_val s
  /\ SS.possible_moves_list s = SSGameCurrentState.get_possible_moves s.

(** *** Chopsticks *)

Inductive side : Type := Left | Right.

(** The canonical universe of moves, in its enumeration order. *)
Definition canonical_moves : list string := ["ll"; "lr"; "rl"; "rr"]%string.

(** A canonical move names the mover's own hand, then the opponent's. *)
Definition sides_of (m : string) : option (side * side) :=
  if String.eqb m "ll" then Some (Left, Left)
  else if String.eqb m "lr" then Some (Left, Right)
  else if String.eqb m "rl" then Some (Right, Left)
  else if String.eqb m "rr" then Some (Right, Right)
  else None.

(** Where a hand sits in [current_value]. *)
Definition hand_index (p1 : bool) (sd : side) : nat :=
  match p1, sd with
  | true, Left => 0
  | true, Right => 1
  | false, Left => 2
  | false, Right => 3
  end%nat.

Definition hand (s : CS.state) (p1 : bool) (sd : side) : Z :=
  nth (hand_index p1 sd) (CS.current_value s) 0.

Definition alive (x : Z) : bool := negb (x =? 0).

(** The active player's hand a move uses and the opponent's hand it
    touches. *)
Definition source_hand (s : CS.state) (sd : side) : Z :=
  hand s (CS.is_p1_turn s) sd.

Definition target_hand (s : CS.state) (sd : side) : Z :=
  hand s (negb (CS.is_p1_turn s)) sd.

(** A move survives the filter when its source and its target are alive. *)
Definition survives (s : CS.state) (m : string) : bool :=
  match sides_of m with
  | Some (src, tgt) => alive (source_hand s src) && alive (target_hand s tgt)
  | None => false
  end.

Definition filtered_moves (s : CS.state) : list string :=
  filter (survives s) canonical_moves.

(** Source hand plus target hand, before the reduction modulo 5. *)
Definition pre_reduction_sum (s : CS.state) (m : string) : option Z :=
  match sides_of m with
  | Some (src, tgt) => Some (source_hand s src + target_hand s tgt)
  | None => None
  end.

Definition both_dead (s : CS.state) (p1 : bool) : bool :=
  (hand s p1 Left =? 0) && (hand s p1 Right =? 0).

(** A state holds four hands. *)
Definition four_hands (s : CS.state) : Prop :=
  List.length (CS.current_value s) = 4%nat.

Definition hands_in_range (s : CS.state) : Prop :=
  Forall (fun x => 0 <= x <= 4) (CS.current_value s).

(** The states of legal play: a fresh game, then moves that
    [is_valid_move] accepts. *)
Inductive cs_reachable : CS.state -> Prop :=
| cs_reach_init (is_p1_turn : bool) :
    cs_reachable (CSGameCurrentState.__init__ is_p1_turn)
| cs_reach_move (s s' : CS.state) (m : string) :
    cs_reachable s ->
    CSGameCurrentState.is_valid_move s m = Ok true ->
    CSGameCurrentState.make_move s m = Ok s' ->
    cs_reachable s'.

(** The same with [make_move] alone: the method does not validate. *)
Fixpoint cs_apply (s : CS.state) (moves : list string) : result CS.state :=
  match moves with
  | [] => Ok s
  | m :: moves' =>
      s' <- CSGameCurrentState.make_move s m ;;
      cs_apply s' moves'
  end.

(** Legal play along a list of moves: [None] when a move is refused by
    [is_valid_move] or an exception is raised. *)
Fixpoint cs_play (s : CS.state) (moves : list string) : option CS.state :=
  match moves with
  | [] => Some s
  | m :: moves' =>
      match CSGameCurrentState.is_valid_move s m,
            CSGameCurrentState.make_move s m with
      | Ok true, Ok s' => cs_play s' moves'
      | _, _ => None
      end
  end.

(** A character that the chopsticks game's [str_to_move] keeps. *)
Definition kept (c : ascii) : bool :=
  negb (contains Ascii.eqb c ChopsticksGame.unwanted).

(** *** Decimal numerals *)

(** The characters of a decimal numeral of the standard library, and the
    value of its digits read from the left, starting from [acc]. *)
Definition uint_chars (d : Decimal.uint) : list ascii :=
  list_ascii_of_string (DecimalString.NilEmpty.string_of_uint d).

Fixpoint uint_value (acc : Z) (d : Decimal.uint) : Z :=
  match d with
  | Decimal.Nil => acc
  | Decimal.D0 d' => uint_value (10 * acc + 0) d'
  | Decimal.D1 d' => uint_value (10 * acc + 1) d'
  | Decimal.D2 d' => uint_value (10 * acc + 2) d'
  | Decimal.D3 d' => uint_value (10 * acc + 3) d'
  | Decimal.D4 d' => uint_value (10 * acc + 4) d'
  | Decimal.D5 d' => uint_value (10 * acc + 5) d'
  | Decimal.D6 d' => uint_value (10 * acc + 6) d'
  | Decimal.D7 d' => uint_value (10 * acc + 7) d'
  | Decimal.D8 d' => uint_value (10 * acc + 8) d'
  | Decimal.D9 d' => uint_value (10 * acc + 9) d'
  end.

(** The text of an integer in base 10, as [str(z)] prints it. *)
Definition decimal_of_Z (z : Z) : string :=
  DecimalString.NilZero.string_of_int (Z.to_int z).



(** The number of digits of the decimal text of an integer. *)
Definition decimal_digits (z : Z) : N :=
  match Z.to_int z with
  | Decimal.Pos u | Decimal.Neg u =>
      N.of_nat (String.length (DecimalString.NilZero.string_of_uint u))
  end.


(* ================================================================== *)
(** ** Facts about the builtins                                        *)
(* ================================================================== *)

Section ListEquality.
Context {A : Type} (eqb : A -> A -> bool).
Hypothesis eqb_eq : forall x y, eqb x y = true <-> x = y.

Lemma list_eqb_eq (l1 l2 : list A) :
  list_eqb eqb l1 l2 = true <-> l1 = l2.
Proof.
  revert l2. induction l1 as [| x l1 IH]; intros [| y l2]; cbn;
    try (split; congruence).
  rewrite andb_true_iff, eqb_eq, IH. split.
  - intros [-> ->]. reflexivity.
  - intros [= -> ->]. auto.
Qed.

Lemma list_eqb_refl (l : list A) : list_eqb eqb l l = true.
Proof. now apply list_eqb_eq. Qed.

End ListEquality.

(* ================================================================== *)
(** ** Subtract square: the list of moves                              *)
(* ================================================================== *)

Section SquaresLoop.
Import SSGameCurrentState.

Lemma squares_loop_unfold (v i : Z) (acc : list Z) :
  squares_loop v i acc =
  if i * i <=? v then squares_loop v (i + 1) (acc ++ [i * i]) else acc.
Proof.
  rewrite (squares_loop_equation_1 v i acc).
  destruct (Z_le_gt_dec (i * i) v) as [H | H]; cbn.
  - apply Z.leb_le in H. now rewrite H.
  - assert (E : (i * i <=? v) = false) by (apply Z.leb_gt; lia).
    now rewrite E.
Qed.

Lemma squares_loop_range (v : Z) (n : nat) :
  0 <= v ->
  forall i acc,
    1 <= i ->
    Z.of_nat n = Z.sqrt v + 1 - i ->
    squares_loop v i acc =
    acc ++ map (fun k => k * k) (map Z.of_nat (seq (Z.to_nat i) n)).
Proof.
  intros Hv. pose proof (Z.sqrt_spec v Hv) as [Hlo Hhi].
  induction n as [| n IH]; intros i acc Hi Hn.
  - rewrite squares_loop_unfold.
    assert (E : (i * i <=? v) = false).
    { apply Z.leb_gt. replace i with (Z.succ (Z.sqrt v)) by lia. exact Hhi. }
    rewrite E. cbn. now rewrite app_nil_r.
  - rewrite squares_loop_unfold.
    assert (E : (i * i <=? v) = true).
    { apply Z.leb_le. apply Z.sqrt_le_square; lia. }
    rewrite E, IH by lia.
    cbn [seq map]. rewrite <- app_assoc. cbn [app].
    rewrite Z2Nat.id by lia.
    replace (Z.to_nat (i + 1)) with (S (Z.to_nat i)) by lia.
    reflexivity.
Qed.

Lemma get_possible_moves_squares (s : SS.state) :
  0 <= SS.current_val s ->
  get_possible_moves s = squares_upto (SS.current_val s).
Proof.
  intros Hv. unfold get_possible_moves, squares_upto.
  rewrite (squares_loop_range _ (Z.to_nat (Z.sqrt (SS.current_val s))));
    try lia.
  - reflexivity.
  - pose proof (Z.sqrt_nonneg (SS.current_val s)). lia.
Qed.

Lemma get_possible_moves_negative (s : SS.state) :
  SS.current_val s < 0 -> get_possible_moves s = [].
Proof.
  intros Hv. unfold get_possible_moves. rewrite squares_loop_unfold.
  assert (E : (1 * 1 <=? SS.current_val s) = false) by (apply Z.leb_gt; lia).
  now rewrite E.
Qed.

Lemma in_squares_upto (v x : Z) :
  0 <= v ->
  In x (squares_upto v) <-> exists k, 1 <= k /\ x = k * k /\ k * k <= v.
Proof.
  intros Hv. unfold squares_upto. rewrite map_map, in_map_iff. split.
  - intros (j & <- & Hj). apply in_seq in Hj. exists (Z.of_nat j).
    split; [lia |]. split; [reflexivity |].
    apply Z.sqrt_le_square; lia.
  - intros (k & Hk & -> & Hle). exists (Z.to_nat k).
    rewrite Z2Nat.id by lia. split; [reflexivity |].
    apply in_seq. apply Z.sqrt_le_square in Hle; lia.
Qed.

Lemma squares_sorted_from (a n : nat) :
  StronglySorted Z.lt
    (map (fun k => k * k) (map Z.of_nat (seq a n))).
Proof.
  revert a. induction n as [| n IH]; intros a; cbn; constructor.
  - apply IH.
  - apply Forall_forall. intros x Hx. rewrite map_map in Hx.
    apply in_map_iff in Hx. destruct Hx as (j & <- & Hj).
    apply in_seq in Hj. nia.
Qed.

Lemma strongly_sorted_lt_nodup (l : list Z) :
  StronglySorted Z.lt l -> NoDup l.
Proof.
  induction 1 as [| x l _ IH Hall]; constructor; [| exact IH].
  intros Hin. rewrite Forall_forall in Hall. specialize (Hall x Hin). lia.
Qed.

End SquaresLoop.

(** C6: for a non-negative value, [get_possible_moves] of a subtraction
    state is exactly the list of the squares [k * k <= value], [k >= 1]:
    it is strictly ascending, hence free of duplicates, it depends on the
    value alone, so that computing it again gives the same list, and it is
    the list the constructor caches. *)
Theorem ss_get_possible_moves_ascending_squares (s : SS.state) :
  0 <= SS.current_val s ->
  SSGameCurrentState.get_possible_moves s = squares_upto (SS.current_val s)
  /\ (forall x, In x (SSGameCurrentState.get_possible_moves s) <->
                exists k, 1 <= k /\ x = k * k /\ k * k <= SS.current_val s)
  /\ StronglySorted Z.lt (SSGameCurrentState.get_possible_moves s)
  /\ NoDup (SSGameCurrentState.get_possible_moves s)
  /\ (forall s', SS.current_val s' = SS.current_val s ->
                 SSGameCurrentState.get_possible_moves s' =
                 SSGameCurrentState.get_possible_moves s)
  /\ (forall b, SSGameCurrentState.__init__ b (PInt (SS.current_val s)) =
                Ok (SS.mk b (SS.current_val s)
                      (SSGameCurrentState.get_possible_moves s))).
Proof.
  intros Hv. rewrite (get_possible_moves_squares s Hv).
  repeat split.
  - apply in_squares_upto, Hv.
  - apply in_squares_upto, Hv.
  - apply squares_sorted_from.
  - apply strongly_sorted_lt_nodup, squares_sorted_from.
  - intros s' E. rewrite get_possible_moves_squares; rewrite E; auto.
  - intros b. cbn. unfold SSGameCurrentState.get_possible_moves. cbn.
    fold (SSGameCurrentState.get_possible_moves s).
    now rewrite (get_possible_moves_squares s Hv).
Qed.

Lemma ss_get_possible_moves_ascending_squares_witness :
  0 <= SS.current_val (SS.mk false 103 [])
  /\ SSGameCurrentState.get_possible_moves (SS.mk false 103 []) =
     [1; 4; 9; 16; 25; 36; 49; 64; 81; 100].
Proof.
  split; [cbn; lia |].
  destruct (ss_get_possible_moves_ascending_squares (SS.mk false 103 []))
    as [E _]; [cbn; lia |].
  rewrite E. reflexivity.
Defined.

(* ================================================================== *)
(** ** Subtract square: every play ends at value 0                     *)
(* ================================================================== *)

Section SubtractSquarePlay.
Import SSGameCurrentState.

Lemma contains_Z_In (x : Z) (l : list Z) :
  contains Z.eqb x l = true <-> In x l.
Proof.
  unfold contains. rewrite existsb_exists. split.
  - intros (y & Hy & E). apply Z.eqb_eq in E. now subst.
  - intros H. exists x. split; [exact H | apply Z.eqb_refl].
Qed.

Lemma list_eqb_nil {A} (eqb : A -> A -> bool) (l : list A) :
  list_eqb eqb l [] = true <-> l = [].
Proof. destruct l; cbn; split; congruence. Qed.

Lemma ss_init_consistent (b : bool) (v : Z) (s0 : SS.state) :
  0 <= v -> __init__ b (PInt v) = Ok s0 ->
  ss_consistent s0 /\ SS.current_val s0 = v /\ SS.is_p1_turn s0 = b.
Proof.
  intros Hv E. cbn in E. injection E as <-. repeat split; cbn; auto.
Qed.

Lemma ss_valid_move_bounds (s : SS.state) (m : Z) :
  ss_consistent s -> is_valid_move s m = true ->
  1 <= m <= SS.current_val s.
Proof.
  intros [Hv Hc] Hm. unfold is_valid_move in Hm.
  apply contains_Z_In in Hm. rewrite Hc in Hm.
  rewrite (get_possible_moves_squares s Hv) in Hm.
  apply in_squares_upto in Hm; [| exact Hv].
  destruct Hm as (k & Hk & -> & Hle). nia.
Qed.

Lemma ss_make_move_consistent (s : SS.state) (m : Z) :
  ss_consistent s -> is_valid_move s m = true ->
  ss_consistent (make_move s m).
Proof.
  intros Hs Hm. pose proof (ss_valid_move_bounds s m Hs Hm).
  split; cbn; [lia | reflexivity].
Qed.

Lemma ss_no_moves_iff_zero (s : SS.state) :
  ss_consistent s ->
  SS.possible_moves_list s = [] <-> SS.current_val s = 0.
Proof.
  intros [Hv Hc]. rewrite Hc, (get_possible_moves_squares s Hv). split.
  - intros E. destruct (Z.eq_dec (SS.current_val s) 0) as [| Hne]; auto.
    assert (Hin : In 1 (squares_upto (SS.current_val s))).
    { apply in_squares_upto; [exact Hv |]. exists 1. lia. }
    rewrite E in Hin. destruct Hin.
  - intros ->. reflexivity.
Qed.

Lemma ss_play_descends (moves : list Z) :
  forall s s', ss_consistent s -> ss_play s moves = Some s' ->
    ss_consistent s'
    /\ Z.of_nat (List.length moves) <= SS.current_val s - SS.current_val s'.
Proof.
  induction moves as [| m moves IH]; intros s s' Hs Hp; cbn in Hp.
  - injection Hp as <-. split; [exact Hs | cbn; lia].
  - destruct (is_valid_move s m) eqn:Hm; [| discriminate].
    destruct (IH _ _ (ss_make_move_consistent s m Hs Hm) Hp) as [Hs' Hlen].
    split; [exact Hs' |].
    pose proof (ss_valid_move_bounds s m Hs Hm).
    cbn [List.length]. cbn in Hlen. lia.
Qed.

Lemma ss_step_acc (n : nat) :
  forall s, ss_consistent s -> (Z.to_nat (SS.current_val s) < n)%nat ->
    Acc (fun s' s => ss_step s s') s.
Proof.
  induction n as [| n IH]; intros s Hs Hlt; [lia |].
  constructor. intros s' (m & Hm & ->).
  pose proof (ss_valid_move_bounds s m Hs Hm).
  apply IH; [now apply ss_make_move_consistent | cbn; lia].
Qed.

End SubtractSquarePlay.

(** C7: from the state built on a non-negative starting value, legal play
    is well founded (no infinite sequence of legal moves), a sequence of
    legal moves is no longer than the starting value, every state it
    reaches has a non-negative value and an up-to-date list of moves, that
    list is empty exactly when the value is 0, and each legal move leaves a
    value that is non-negative and strictly smaller. *)
Theorem ss_play_terminates_at_zero (b : bool) (v : Z) (s0 : SS.state) :
  0 <= v ->
  SSGameCurrentState.__init__ b (PInt v) = Ok s0 ->
  Acc (fun s' s => ss_step s s') s0
  /\ forall moves s,
       ss_play s0 moves = Some s ->
       Z.of_nat (List.length moves) <= v
       /\ 0 <= SS.current_val s
       /\ SS.possible_moves_list s = SSGameCurrentState.get_possible_moves s
       /\ (SS.possible_moves_list s = [] <-> SS.current_val s = 0)
       /\ forall m,
            SSGameCurrentState.is_valid_move s m = true ->
            0 <= SS.current_val (SSGameCurrentState.make_move s m)
              < SS.current_val s.
Proof.
  intros Hv Hinit.
  destruct (ss_init_consistent b v s0 Hv Hinit) as (Hs0 & Hval & _).
  split.
  - apply (ss_step_acc (S (Z.to_nat v))); [exact Hs0 | lia].
  - intros moves s Hp.
    destruct (ss_play_descends moves s0 s Hs0 Hp) as [Hs Hlen].
    pose proof Hs as [Hnn Hc].
    repeat split; try lia; auto.
    + now apply ss_no_moves_iff_zero.
    + now apply ss_no_moves_iff_zero.
    + pose proof (ss_valid_move_bounds s m Hs H). cbn. lia.
    + pose proof (ss_valid_move_bounds s m Hs H). cbn. lia.
Qed.

Lemma ss_play_terminates_at_zero_witness :
  0 <= 5
  /\ SSGameCurrentState.__init__ true (PInt 5) = Ok (SS.mk true 5 [1; 4])
  /\ forall moves s,
       ss_play (SS.mk true 5 [1; 4]) moves = Some s ->
       Z.of_nat (List.length moves) <= 5.
Proof.
  split; [lia |]. split; [reflexivity |].
  intros moves s Hp.
  destruct (ss_play_terminates_at_zero true 5 (SS.mk true 5 [1; 4]))
    as [_ H]; [lia | reflexivity |].
  destruct (H moves s Hp) as [Hlen _]. exact Hlen.
Defined.

(* ================================================================== *)
(** ** Chopsticks: moves and transitions                               *)
(* ================================================================== *)

Section ChopsticksBasics.
Import CSGameCurrentState.

Lemma four_hands_inv (s : CS.state) :
  four_hands s ->
  exists a b c d, CS.current_value s = [a; b; c; d].
Proof.
  unfold four_hands. destruct (CS.current_value s) as [| a [| b [| c [| d [| e l]]]]];
    cbn; try discriminate.
  intros _. now exists a, b, c, d.
Qed.

Lemma sides_of_inv (m : string) (src tgt : side) :
  sides_of m = Some (src, tgt) ->
  (m = "ll" /\ src = Left /\ tgt = Left
   \/ m = "lr" /\ src = Left /\ tgt = Right
   \/ m = "rl" /\ src = Right /\ tgt = Left
   \/ m = "rr" /\ src = Right /\ tgt = Right)%string.
Proof.
  unfold sides_of.
  destruct (String.eqb_spec m "ll"); [intros [= ? ?]; subst; tauto |].
  destruct (String.eqb_spec m "lr"); [intros [= ? ?]; subst; tauto |].
  destruct (String.eqb_spec m "rl"); [intros [= ? ?]; subst; tauto |].
  destruct (String.eqb_spec m "rr"); [intros [= ? ?]; subst; tauto |].
  discriminate.
Qed.

Lemma contains_string_In (x : string) (l : list string) :
  contains String.eqb x l = true <-> In x l.
Proof.
  unfold contains. rewrite existsb_exists. split.
  - intros (y & Hy & E). apply String.eqb_eq in E. now subst.
  - intros H. exists x. split; [exact H | apply String.eqb_refl].
Qed.

Lemma is_valid_move_In (s : CS.state) (m : string) :
  is_valid_move s m = Ok true <->
  exists moves, get_possible_moves s = Ok moves /\ In m moves.
Proof.
  unfold is_valid_move.
  destruct (get_possible_moves s) as [moves | e]; cbn.
  - split.
    + intros [= E]. exists moves. split; [reflexivity |].
      now apply contains_string_In.
    + intros (moves' & [= <-] & Hin). f_equal.
      now apply contains_string_In.
  - split; [discriminate | intros (moves' & E & _); discriminate].
Qed.

(** The code's list on a state of four hands, by cases on which hands
    are dead: the list of the filter, except in the three cases where the
    opponent has two dead hands and the mover a live one. *)
Lemma get_possible_moves_filtered (s : CS.state) :
  four_hands s ->
  both_dead s (negb (CS.is_p1_turn s)) = false
  \/ both_dead s (CS.is_p1_turn s) = true ->
  get_possible_moves s = Ok (filtered_moves s).
Proof.
  intros H4 Hcase. destruct (four_hands_inv s H4) as (a & b & c & d & Hcv).
  unfold get_possible_moves, filtered_moves, survives, both_dead,
    source_hand, target_hand, hand, get_current_player_name, nz, alive in *.
  rewrite Hcv in *. cbn in *.
  destruct (CS.is_p1_turn s); cbn in *;
    destruct (a =? 0), (b =? 0), (c =? 0), (d =? 0); cbn in *;
    try reflexivity; destruct Hcase; discriminate.
Qed.

Lemma get_possible_moves_canonical (s : CS.state) (moves : list string) :
  get_possible_moves s = Ok moves -> incl moves canonical_moves.
Proof.
  unfold get_possible_moves, getitem.
  destruct (CS.current_value s) as [| a [| b [| c [| d l]]]];
    cbn; try discriminate.
  unfold get_current_player_name, nz.
  intros [= <-].
  destruct (CS.is_p1_turn s); cbn;
    destruct (a =? 0), (b =? 0), (c =? 0), (d =? 0); cbn;
    intros x Hx; cbn in *; intuition.
Qed.

Lemma canonical_sides (m : string) :
  In m canonical_moves -> exists src tgt, sides_of m = Some (src, tgt).
Proof.
  cbn. intros [<- | [<- | [<- | [<- | []]]]]; cbn; eauto.
Qed.

(** The mover of a legal move has a live hand. *)
Lemma legal_move_mover_alive (s : CS.state) (moves : list string) (m : string) :
  get_possible_moves s = Ok moves -> In m moves ->
  both_dead s (CS.is_p1_turn s) = false.
Proof.
  unfold get_possible_moves, getitem, both_dead, hand.
  destruct (CS.current_value s) as [| a [| b [| c [| d l]]]];
    cbn; try discriminate.
  unfold get_current_player_name, nz.
  intros [= <-].
  destruct (CS.is_p1_turn s); cbn;
    destruct (a =? 0), (b =? 0), (c =? 0), (d =? 0); cbn;
    intros Hx; auto; destruct Hx.
Qed.

(** What [make_move] does with a canonical move on four hands. *)
Lemma make_move_canonical (s : CS.state) (m : string) (src tgt : side) :
  four_hands s ->
  sides_of m = Some (src, tgt) ->
  exists s',
    make_move s m = Ok s'
    /\ CS.is_p1_turn s' = negb (CS.is_p1_turn s)
    /\ four_hands s'
    /\ nth_error (CS.current_value s') (hand_index (negb (CS.is_p1_turn s)) tgt)
       = Some ((source_hand s src + target_hand s tgt) mod 5)
    /\ forall i, i <> hand_index (negb (CS.is_p1_turn s)) tgt ->
         nth_error (CS.current_value s') i = nth_error (CS.current_value s) i.
Proof.
  intros H4 Hm. destruct (four_hands_inv s H4) as (a & b & c & d & Hcv).
  apply sides_of_inv in Hm.
  unfold make_move, source_hand, target_hand, hand, four_hands.
  rewrite Hcv. unfold get_current_player_name.
  destruct (CS.is_p1_turn s);
    destruct Hm as [(-> & -> & ->) | [(-> & -> & ->) | [(-> & -> & ->) | (-> & -> & ->)]]];
    cbn; eexists; (split; [reflexivity |]); cbn;
    repeat split; try (f_equal; f_equal; lia);
    intros [| [| [| [| i]]]] Hi; cbn; congruence.
Qed.

End ChopsticksBasics.

Section ChopsticksReachable.
Import CSGameCurrentState.

Lemma nth_error_same_nth {A} (l l' : list A) (i : nat) (d : A) :
  nth_error l i = nth_error l' i -> nth i l d = nth i l' d.
Proof.
  intros E. destruct (nth_error l i) as [x |] eqn:El.
  - rewrite (nth_error_nth l i d El).
    symmetry in E. now rewrite (nth_error_nth l' i d E).
  - rewrite nth_overflow by (now apply nth_error_None).
    symmetry in E. rewrite nth_overflow by (now apply nth_error_None).
    reflexivity.
Qed.

Lemma hand_index_inj (p p' : bool) (sd sd' : side) :
  hand_index p sd = hand_index p' sd' -> p = p' /\ sd = sd'.
Proof. destruct p, p', sd, sd'; cbn; intros [=]; auto. Qed.

Lemma hand_index_lt (p : bool) (sd : side) : (hand_index p sd < 4)%nat.
Proof. destruct p, sd; cbn; lia. Qed.

Lemma hand_in_range (s : CS.state) (p : bool) (sd : side) :
  four_hands s -> hands_in_range s -> 0 <= hand s p sd <= 4.
Proof.
  intros H4 Hr. unfold hands_in_range in Hr. rewrite Forall_forall in Hr.
  apply Hr. apply nth_In. rewrite H4. apply hand_index_lt.
Qed.

(** A legal move is canonical and [make_move] applies it. *)
Lemma legal_move_applies (s : CS.state) (m : string) :
  four_hands s ->
  is_valid_move s m = Ok true ->
  exists src tgt s',
    sides_of m = Some (src, tgt)
    /\ make_move s m = Ok s'
    /\ CS.is_p1_turn s' = negb (CS.is_p1_turn s)
    /\ four_hands s'
    /\ nth_error (CS.current_value s') (hand_index (negb (CS.is_p1_turn s)) tgt)
       = Some ((source_hand s src + target_hand s tgt) mod 5)
    /\ forall i, i <> hand_index (negb (CS.is_p1_turn s)) tgt ->
         nth_error (CS.current_value s') i = nth_error (CS.current_value s) i.
Proof.
  intros H4 Hv. apply is_valid_move_In in Hv.
  destruct Hv as (moves & Hmoves & Hin).
  apply (get_possible_moves_canonical s moves Hmoves) in Hin.
  destruct (canonical_sides m Hin) as (src & tgt & Hsd).
  destruct (make_move_canonical s m src tgt H4 Hsd) as (s' & H).
  exists src, tgt, s'. split; [exact Hsd | exact H].
Qed.

Lemma make_move_keeps_range (s s' : CS.state) (m : string) :
  four_hands s -> hands_in_range s ->
  is_valid_move s m = Ok true -> make_move s m = Ok s' ->
  four_hands s' /\ hands_in_range s'.
Proof.
  intros H4 Hr Hv Hmk.
  destruct (legal_move_applies s m H4 Hv)
    as (src & tgt & s'' & _ & Hmk' & _ & H4' & Htgt & Hrest).
  rewrite Hmk in Hmk'. injection Hmk' as <-.
  split; [exact H4' |].
  unfold hands_in_range. apply Forall_forall. intros x Hx.
  apply In_nth_error in Hx. destruct Hx as [i Hi].
  destruct (Nat.eq_dec i (hand_index (negb (CS.is_p1_turn s)) tgt)) as [-> | Hne].
  - rewrite Htgt in Hi. injection Hi as <-.
    pose proof (Z.mod_pos_bound (source_hand s src + target_hand s tgt) 5).
    lia.
  - rewrite (Hrest i Hne) in Hi. apply nth_error_In in Hi.
    unfold hands_in_range in Hr. rewrite Forall_forall in Hr. now apply Hr.
Qed.

Lemma make_move_keeps_mover (s s' : CS.state) (m : string) :
  four_hands s ->
  is_valid_move s m = Ok true -> make_move s m = Ok s' ->
  both_dead s' (negb (CS.is_p1_turn s')) = false.
Proof.
  intros H4 Hv Hmk.
  destruct (legal_move_applies s m H4 Hv)
    as (src & tgt & s'' & _ & Hmk' & Hturn & _ & _ & Hrest).
  rewrite Hmk in Hmk'. injection Hmk' as <-.
  rewrite Hturn, negb_involutive.
  apply is_valid_move_In in Hv. destruct Hv as (moves & Hmoves & Hin).
  rewrite <- (legal_move_mover_alive s moves m Hmoves Hin).
  unfold both_dead, hand. f_equal; f_equal;
    apply nth_error_same_nth, Hrest;
    intros E; apply hand_index_inj in E; destruct E as [E _];
    now destruct (CS.is_p1_turn s).
Qed.

(** In legal play the hands stay four, each within 0..4, and the player
    who is not to move always has a live hand. *)
Lemma cs_reachable_invariant (s : CS.state) :
  cs_reachable s ->
  four_hands s /\ hands_in_range s
  /\ both_dead s (negb (CS.is_p1_turn s)) = false.
Proof.
  induction 1 as [b | s s' m _ (H4 & Hr & _) Hv Hmk].
  - split; [reflexivity |]. split.
    + unfold hands_in_range. cbn. repeat constructor; lia.
    + now destruct b.
  - destruct (make_move_keeps_range s s' m H4 Hr Hv Hmk) as [H4' Hr'].
    split; [exact H4' |]. split; [exact Hr' |].
    exact (make_move_keeps_mover s s' m H4 Hv Hmk).
Qed.

Lemma legal_move_survives (s : CS.state) (m : string) :
  cs_reachable s -> is_valid_move s m = Ok true -> survives s m = true.
Proof.
  intros Hreach Hv.
  destruct (cs_reachable_invariant s Hreach) as (H4 & _ & Hopp).
  apply is_valid_move_In in Hv. destruct Hv as (moves & Hmoves & Hin).
  rewrite (get_possible_moves_filtered s H4 (or_introl Hopp)) in Hmoves.
  injection Hmoves as <-. unfold filtered_moves in Hin.
  now apply filter_In in Hin.
Qed.

End ChopsticksReachable.

Lemma cs_play_reachable (moves : list string) :
  forall s s', cs_reachable s -> cs_play s moves = Some s' -> cs_reachable s'.
Proof.
  induction moves as [| m moves IH]; intros s s' Hs Hp; cbn in Hp.
  - now injection Hp as <-.
  - destruct (CSGameCurrentState.is_valid_move s m) as [[|] |] eqn:Hv;
      try discriminate.
    destruct (CSGameCurrentState.make_move s m) as [s1 |] eqn:Hmk;
      try discriminate.
    apply (IH s1 s'); [| exact Hp].
    now apply (cs_reach_move s s1 m).
Qed.

Lemma cs_play_from_start (b : bool) (moves : list string) (s : CS.state) :
  cs_play (CSGameCurrentState.__init__ b) moves = Some s -> cs_reachable s.
Proof. apply cs_play_reachable. constructor. Qed.

(* ================================================================== *)
(** ** Chopsticks: the properties                                      *)
(* ================================================================== *)

(** C1: [get_possible_moves] against the filter of the specification, on
    the state with hands 4, 1, 0, 0 and player 1 to move, which six calls
    of [make_move] build from a fresh game.  All hands are within 0..4 and
    both hands of the opponent are dead, so the filter keeps no move; the
    code falls into the last [else] of its first group and answers
    [ll, rl]. *)
Theorem cs_get_possible_moves_dead_opponent :
  let s := CS.mk true [4; 1; 0; 0] ["ll"; "rl"]%string [] in
  cs_apply (CSGameCurrentState.__init__ true)
           ["ll"; "ll"; "ll"; "rl"; "lr"; "ll"]%string = Ok s
  /\ four_hands s
  /\ hands_in_range s
  /\ both_dead s (negb (CS.is_p1_turn s)) = true
  /\ filtered_moves s = []
  /\ CSGameCurrentState.get_possible_moves s = Ok ["ll"; "rl"]%string.
Proof.
  cbv zeta. repeat split.
  unfold hands_in_range. cbn. repeat constructor; lia.
Qed.

(** C2, as stated, fails: after [ll, ll, lr] from a fresh game the hands
    are 3, 1, 2, 4 with player 2 to move, [rl] is legal and adds the
    right hand 4 to the left hand 3, which is 7. *)
Lemma cs_pre_reduction_sum_above_five :
  ~ (forall s m k,
        cs_reachable s ->
        CSGameCurrentState.is_valid_move s m = Ok true ->
        pre_reduction_sum s m = Some k ->
        k <= 5).
Proof.
  intros H.
  pose (s := CS.mk false [3; 1; 2; 4] canonical_moves canonical_moves).
  assert (Hs : cs_reachable s).
  { apply (cs_play_from_start true ["ll"; "ll"; "lr"]%string). reflexivity. }
  specialize (H s "rl"%string 7 Hs eq_refl eq_refl). lia.
Qed.

(** The state that legal play along [path] reaches from a fresh game with
    player 1 to move, and the legal move [mv] in it. *)
Ltac after_play path mv :=
  let r := eval vm_compute in
             (cs_play (CSGameCurrentState.__init__ true) path) in
  match r with
  | Some ?st =>
      exists st, mv;
      split; [apply (cs_play_from_start true path); vm_compute; reflexivity
             | split; vm_compute; reflexivity]
  end.

(** C2, amended: in every state of legal play, the sum of the source hand
    and the target hand of a legal move, before reduction, lies between 2
    and 8, and each of the sums 2, ..., 8 does occur in legal play. *)
Theorem cs_pre_reduction_sum_bounds :
  (forall s m,
      cs_reachable s ->
      CSGameCurrentState.is_valid_move s m = Ok true ->
      exists k, pre_reduction_sum s m = Some k /\ 2 <= k <= 8)
  /\ (forall k, 2 <= k <= 8 ->
        exists s m,
          cs_reachable s
          /\ CSGameCurrentState.is_valid_move s m = Ok true
          /\ pre_reduction_sum s m = Some k).
Proof.
  split.
  - intros s m Hs Hv.
    pose proof (legal_move_survives s m Hs Hv) as Hsv.
    destruct (cs_reachable_invariant s Hs) as (H4 & Hr & _).
    unfold survives in Hsv. unfold pre_reduction_sum.
    destruct (sides_of m) as [[src tgt] |]; [| discriminate].
    eexists. split; [reflexivity |].
    apply andb_prop in Hsv. destruct Hsv as [Ha Hb].
    unfold alive in Ha, Hb.
    apply negb_true_iff, Z.eqb_neq in Ha.
    apply negb_true_iff, Z.eqb_neq in Hb.
    pose proof (hand_in_range s (CS.is_p1_turn s) src H4 Hr).
    pose proof (hand_in_range s (negb (CS.is_p1_turn s)) tgt H4 Hr).
    unfold source_hand, target_hand in *. lia.
  - intros k Hk.
    assert (Hcases : k = 2 \/ k = 3 \/ k = 4 \/ k = 5 \/ k = 6 \/ k = 7 \/ k = 8)
      by lia.
    destruct Hcases as [-> | [-> | [-> | [-> | [-> | [-> | ->]]]]]].
    + exists (CSGameCurrentState.__init__ true), "ll"%string.
      split; [constructor | split; reflexivity].
    + after_play ["ll"]%string "ll"%string.
    + after_play ["ll"; "ll"]%string "lr"%string.
    + after_play ["ll"; "ll"]%string "ll"%string.
    + after_play ["ll"; "ll"; "rl"]%string "ll"%string.
    + after_play ["ll"; "ll"; "lr"]%string "rl"%string.
    + after_play ["ll"; "ll"; "rl"; "lr"; "lr"]%string "rr"%string.
Qed.

Lemma cs_pre_reduction_sum_bounds_witness :
  cs_reachable (CSGameCurrentState.__init__ false)
  /\ CSGameCurrentState.is_valid_move (CSGameCurrentState.__init__ false) "rl"
     = Ok true
  /\ exists k,
       pre_reduction_sum (CSGameCurrentState.__init__ false) "rl" = Some k
       /\ 2 <= k <= 8.
Proof.
  split; [constructor |]. split; [reflexivity |].
  apply (proj1 cs_pre_reduction_sum_bounds); [constructor | reflexivity].
Defined.

(** C4: on a state of four hands, [make_move] with a legal move returns a
    state in which the opponent's targeted hand is the source hand plus the
    target hand modulo 5, every other position of [current_value] is as it
    was, the hands are still four, and the other player is to move. *)
Theorem cs_make_move_target_and_frame (s : CS.state) (m : string) :
  four_hands s ->
  CSGameCurrentState.is_valid_move s m = Ok true ->
  exists src tgt s',
    sides_of m = Some (src, tgt)
    /\ CSGameCurrentState.make_move s m = Ok s'
    /\ nth_error (CS.current_value s')
                 (hand_index (negb (CS.is_p1_turn s)) tgt)
       = Some ((source_hand s src + target_hand s tgt) mod 5)
    /\ (forall i, i <> hand_index (negb (CS.is_p1_turn s)) tgt ->
          nth_error (CS.current_value s') i = nth_error (CS.current_value s) i)
    /\ four_hands s'
    /\ CS.is_p1_turn s' = negb (CS.is_p1_turn s).
Proof.
  intros H4 Hv.
  destruct (legal_move_applies s m H4 Hv)
    as (src & tgt & s' & Hsd & Hmk & Hturn & H4' & Htgt & Hrest).
  exists src, tgt, s'. repeat split; assumption.
Qed.

Lemma cs_make_move_target_and_frame_witness :
  let s := CS.mk true [4; 1; 3; 1] canonical_moves canonical_moves in
  four_hands s
  /\ CSGameCurrentState.is_valid_move s "ll" = Ok true
  /\ exists s',
       CSGameCurrentState.make_move s "ll" = Ok s'
       /\ CS.current_value s' = [4; 1; 2; 1]
       /\ CS.is_p1_turn s' = false.
Proof.
  cbv zeta. split; [reflexivity |]. split; [reflexivity |].
  destruct (cs_make_move_target_and_frame
              (CS.mk true [4; 1; 3; 1] canonical_moves canonical_moves)
              "ll"%string eq_refl eq_refl)
    as (src & tgt & s' & _ & Hmk & _ & _ & _ & Hturn).
  exists s'. split; [exact Hmk |]. split; [| exact Hturn].
  cbn in Hmk. injection Hmk as <-. reflexivity.
Defined.

(** C5: every state of legal play from a fresh game (hands 1, 1, 1, 1)
    holds four hands, each within 0..4; and when a legal move adds up to
    exactly 5, the hand it touches becomes 0. *)
Theorem cs_reachable_hands_within_0_4 (s : CS.state) :
  cs_reachable s ->
  four_hands s
  /\ hands_in_range s
  /\ forall m src tgt s',
       CSGameCurrentState.is_valid_move s m = Ok true ->
       sides_of m = Some (src, tgt) ->
       source_hand s src + target_hand s tgt = 5 ->
       CSGameCurrentState.make_move s m = Ok s' ->
       nth_error (CS.current_value s')
                 (hand_index (negb (CS.is_p1_turn s)) tgt) = Some 0.
Proof.
  intros Hs. destruct (cs_reachable_invariant s Hs) as (H4 & Hr & _).
  split; [exact H4 |]. split; [exact Hr |].
  intros m src tgt s' Hv Hsd Hsum Hmk.
  destruct (make_move_canonical s m src tgt H4 Hsd)
    as (s'' & Hmk' & _ & _ & Htgt & _).
  rewrite Hmk in Hmk'. injection Hmk' as <-.
  rewrite Htgt, Hsum. reflexivity.
Qed.

Lemma cs_reachable_hands_within_0_4_witness :
  let s := CS.mk true [3; 1; 2; 1] canonical_moves canonical_moves in
  cs_reachable s /\ hands_in_range s.
Proof.
  cbv zeta.
  assert (Hs : cs_reachable
                 (CS.mk true [3; 1; 2; 1] canonical_moves canonical_moves)).
  { apply (cs_play_from_start true ["ll"; "ll"]%string). reflexivity. }
  split; [exact Hs |].
  exact (proj1 (proj2 (cs_reachable_hands_within_0_4 _ Hs))).
Defined.

(** C10: in every chopsticks state, [make_move] with a string that is none
    of [ll], [lr], [rl] does what it does with [rr]: the two calls raise
    together or return the same state, and the two states are [==]. *)
Theorem cs_make_move_unrecognized_as_rr (s : CS.state) (m : string) :
  m <> "ll"%string -> m <> "lr"%string -> m <> "rl"%string ->
  CSGameCurrentState.make_move s m = CSGameCurrentState.make_move s "rr"
  /\ forall s1 s2,
       CSGameCurrentState.make_move s m = Ok s1 ->
       CSGameCurrentState.make_move s "rr" = Ok s2 ->
       s1 = s2 /\ CSGameCurrentState.__eq__ s1 (CSObj s2) = true.
Proof.
  intros Hll Hlr Hrl.
  assert (E : CSGameCurrentState.make_move s m
              = CSGameCurrentState.make_move s "rr").
  { unfold CSGameCurrentState.make_move.
    apply String.eqb_neq in Hll, Hlr, Hrl. rewrite Hll, Hlr, Hrl.
    reflexivity. }
  split; [exact E |].
  intros s1 s2 H1 H2. rewrite E, H2 in H1. injection H1 as <-.
  split; [reflexivity |].
  unfold CSGameCurrentState.__eq__.
  rewrite eqb_reflx, !list_eqb_refl; auto using Z.eqb_eq, String.eqb_eq.
Qed.

Lemma cs_make_move_unrecognized_as_rr_witness :
  CSGameCurrentState.make_move (CSGameCurrentState.__init__ true) "derp"
  = Ok (CS.mk false [1; 1; 1; 2] canonical_moves canonical_moves).
Proof.
  rewrite (proj1 (cs_make_move_unrecognized_as_rr
                    (CSGameCurrentState.__init__ true) "derp"%string
                    ltac:(discriminate) ltac:(discriminate)
                    ltac:(discriminate))).
  reflexivity.
Defined.

(* ================================================================== *)
(** ** Equality of states                                              *)
(* ================================================================== *)

Section SortedStrings.

Lemma string_leb_iff (a b : string) :
  String.leb a b = true <-> a = b \/ String_as_OT.lt a b.
Proof.
  unfold String.leb. destruct (String.compare a b) eqn:E.
  - apply String_as_OT.cmp_eq in E. split; auto.
  - apply String_as_OT.cmp_lt in E. split; auto.
  - split; [discriminate |]. intros [H | H].
    + apply String_as_OT.cmp_eq in H. unfold String_as_OT.cmp in H. congruence.
    + apply String_as_OT.cmp_lt in H. unfold String_as_OT.cmp in H. congruence.
Qed.

Lemma string_leb_trans (a b c : string) :
  String.leb a b = true -> String.leb b c = true -> String.leb a c = true.
Proof.
  rewrite !string_leb_iff. intros [-> | Hab] [-> | Hbc]; auto.
  right. eapply String_as_OT.lt_trans; eassumption.
Qed.

Lemma string_leb_false (a b : string) :
  String.leb a b = false -> String.leb b a = true.
Proof.
  intros H. destruct (String.leb_total a b) as [H' | H']; congruence.
Qed.

Lemma insert_perm (x : string) (l : list string) :
  Permutation (insert x l) (x :: l).
Proof.
  induction l as [| y l IH]; cbn; [reflexivity |].
  destruct (String.leb x y); [reflexivity |].
  rewrite IH. apply perm_swap.
Qed.

Lemma sorted_perm (l : list string) : Permutation (sorted l) l.
Proof.
  induction l as [| x l IH]; cbn; [reflexivity |].
  rewrite insert_perm. now constructor.
Qed.

Lemma insert_comm (x y : string) (l : list string) :
  insert x (insert y l) = insert y (insert x l).
Proof.
  induction l as [| z l IH]; cbn.
  - destruct (String.leb x y) eqn:Exy, (String.leb y x) eqn:Eyx;
      try reflexivity.
    + now rewrite (String.leb_antisym x y Exy Eyx).
    + apply string_leb_false in Exy. congruence.
  - destruct (String.leb y z) eqn:Eyz, (String.leb x z) eqn:Exz; cbn;
      rewrite ?Eyz, ?Exz.
    + destruct (String.leb x y) eqn:Exy, (String.leb y x) eqn:Eyx;
        try reflexivity.
      * now rewrite (String.leb_antisym x y Exy Eyx).
      * apply string_leb_false in Exy. congruence.
    + destruct (String.leb x y) eqn:Exy; [| reflexivity].
      rewrite (string_leb_trans x y z Exy Eyz) in Exz. discriminate.
    + destruct (String.leb y x) eqn:Eyx; [| reflexivity].
      rewrite (string_leb_trans y x z Eyx Exz) in Eyz. discriminate.
    + now rewrite IH.
Qed.

Lemma sorted_of_perm (l1 l2 : list string) :
  Permutation l1 l2 -> sorted l1 = sorted l2.
Proof.
  unfold sorted.
  induction 1 as [| x l1 l2 _ IH | x y l | l1 l2 l3 _ IH1 _ IH2]; cbn.
  - reflexivity.
  - now rewrite IH.
  - apply insert_comm.
  - congruence.
Qed.

(** [sorted(l1) == sorted(l2)] holds exactly when the two lists hold the
    same strings, each as often, in whatever order. *)
Lemma sorted_eqb_iff (l1 l2 : list string) :
  list_eqb String.eqb (sorted l1) (sorted l2) = true <-> Permutation l1 l2.
Proof.
  rewrite (list_eqb_eq String.eqb String.eqb_eq). split.
  - intros E. rewrite <- (sorted_perm l1), E. apply sorted_perm.
  - apply sorted_of_perm.
Qed.

End SortedStrings.

(** C3, as stated, fails for chopsticks: two states that differ only in
    the order of a cached list of moves are [==]. *)
Lemma cs_eq_ignores_cache_order :
  let s1 := CS.mk true [1; 1; 1; 1] ["ll"; "lr"]%string canonical_moves in
  let s2 := CS.mk true [1; 1; 1; 1] ["lr"; "ll"]%string canonical_moves in
  CS.possible_moves_p1 s1 <> CS.possible_moves_p1 s2
  /\ CSGameCurrentState.__eq__ s1 (CSObj s2) = true.
Proof. cbv zeta. split; [discriminate | reflexivity]. Qed.

(** C3, amended: a subtraction state is [==] to exactly the subtraction
    states with the same active player, the same value and the same cached
    list of moves, in the same order; a chopsticks state is [==] to exactly
    the chopsticks states with the same active player, the same hands, and
    cached lists of moves that hold the same moves, each as often, in any
    order.  A state is never [==] to a value of another kind. *)
Theorem state_eq_characterised :
  (forall (self : SS.state) (other : Any),
      SSGameCurrentState.__eq__ self other = true <->
      exists o, other = SSObj o
                /\ SS.is_p1_turn self = SS.is_p1_turn o
                /\ SS.current_val self = SS.current_val o
                /\ SS.possible_moves_list self = SS.possible_moves_list o)
  /\ (forall (self : CS.state) (other : Any),
        CSGameCurrentState.__eq__ self other = true <->
        exists o, other = CSObj o
                  /\ CS.is_p1_turn self = CS.is_p1_turn o
                  /\ CS.current_value self = CS.current_value o
                  /\ Permutation (CS.possible_moves_p1 self)
                                 (CS.possible_moves_p1 o)
                  /\ Permutation (CS.possible_moves_p2 self)
                                 (CS.possible_moves_p2 o)).
Proof.
  split; intros self other.
  - destruct other as [o | o | o]; cbn.
    + rewrite !andb_true_iff, eqb_true_iff, Z.eqb_eq,
        (list_eqb_eq Z.eqb Z.eqb_eq).
      split.
      * intros [[H1 H2] H3]. exists o. auto.
      * intros (o' & [= <-] & H1 & H2 & H3). auto.
    + split; [discriminate | intros (o' & [=] & _)].
    + split; [discriminate | intros (o' & [=] & _)].
  - destruct other as [o | o | o]; cbn.
    + split; [discriminate | intros (o' & [=] & _)].
    + rewrite !andb_true_iff, eqb_true_iff, (list_eqb_eq Z.eqb Z.eqb_eq),
        !sorted_eqb_iff.
      split.
      * intros [[[H1 H2] H3] H4]. exists o. auto.
      * intros (o' & [= <-] & H1 & H2 & H3 & H4). auto.
    + split; [discriminate | intros (o' & [=] & _)].
Qed.

Lemma state_eq_characterised_witness :
  let s1 := CS.mk false [3; 1; 2; 4] ["rl"; "rr"]%string canonical_moves in
  let s2 := CS.mk false [3; 1; 2; 4] ["rr"; "rl"]%string canonical_moves in
  Permutation (CS.possible_moves_p1 s1) (CS.possible_moves_p1 s2)
  /\ CSGameCurrentState.__eq__ s1 (CSObj s2) = true.
Proof.
  cbv zeta.
  assert (P : Permutation ["rl"; "rr"]%string ["rr"; "rl"]%string)
    by apply perm_swap.
  split; [exact P |].
  apply (proj2 state_eq_characterised). eexists. split; [reflexivity |].
  cbn. repeat split; [exact P | reflexivity].
Defined.

(* ================================================================== *)
(** ** Who has won                                                     *)
(* ================================================================== *)

(** C8: in both games [is_winner(player)] is true exactly when the list of
    moves of the side to move is empty and [player] is not the name of
    that side; it is false for every player when the side to move has a
    legal move, and when [is_over] says that the game is not over. *)
Theorem is_winner_iff_mover_stuck :
  (forall (g : SubtractSquareGame.game) (player : string),
      (SubtractSquareGame.is_winner g player = true <->
       SS.possible_moves_list (SubtractSquareGame.current_state g) = []
       /\ player <>
          player_name (SS.is_p1_turn (SubtractSquareGame.current_state g)))
      /\ ((exists m, SSGameCurrentState.is_valid_move
                       (SubtractSquareGame.current_state g) m = true) ->
          SubtractSquareGame.is_winner g player = false)
      /\ (ss_consistent (SubtractSquareGame.current_state g) ->
          is_over (inl (SubtractSquareGame.current_state g)) = Ok false ->
          SubtractSquareGame.is_winner g player = false))
  /\ (forall (g : ChopsticksGame.game) (player : string),
        (ChopsticksGame.is_winner g player = Ok true <->
         CSGameCurrentState.get_possible_moves (ChopsticksGame.current_state g)
         = Ok []
         /\ player <>
            player_name (CS.is_p1_turn (ChopsticksGame.current_state g)))
        /\ ((exists m, CSGameCurrentState.is_valid_move
                         (ChopsticksGame.current_state g) m = Ok true) ->
            ChopsticksGame.is_winner g player = Ok false)
        /\ (is_over (inr (ChopsticksGame.current_state g)) = Ok false ->
            ChopsticksGame.is_winner g player = Ok false)).
Proof.
  split; intros g player.
  - unfold SubtractSquareGame.is_winner, player_name, is_over,
      SSGameCurrentState.is_valid_move.
    set (s := SubtractSquareGame.current_state g).
    repeat split.
    + destruct (SS.possible_moves_list s); cbn in *; congruence.
    + destruct (SS.possible_moves_list s); cbn in *; [| discriminate].
      destruct (SS.is_p1_turn s);
        destruct (String.eqb_spec player "p1");
        destruct (String.eqb_spec player "p2"); cbn in *; congruence.
    + intros [E Hne]. rewrite E. cbn.
      destruct (SS.is_p1_turn s);
        [destruct (String.eqb_spec player "p1")
        | destruct (String.eqb_spec player "p2")]; cbn; congruence.
    + intros [m Hm]. destruct (SS.possible_moves_list s); [discriminate |].
      reflexivity.
    + intros [_ Hc] [= Hover]. rewrite Hc.
      now rewrite Hover.
  - unfold ChopsticksGame.is_winner, player_name, is_over,
      CSGameCurrentState.is_valid_move.
    set (s := ChopsticksGame.current_state g).
    destruct (CSGameCurrentState.get_possible_moves s) as [moves | e]; cbn.
    + repeat split.
      * destruct moves; cbn in *; congruence.
      * destruct moves; cbn in *; [| discriminate].
        destruct (CS.is_p1_turn s);
          destruct (String.eqb_spec player "p1");
          destruct (String.eqb_spec player "p2"); cbn in *; congruence.
      * intros [[= ->] Hne]. cbn.
        destruct (CS.is_p1_turn s);
          [destruct (String.eqb_spec player "p1")
          | destruct (String.eqb_spec player "p2")]; cbn; congruence.
      * intros [m Hm]. destruct moves; [discriminate |]. reflexivity.
      * intros [= Hover]. now rewrite Hover.
    + repeat split; try discriminate.
      * intros [[=] _].
      * intros [m [=]].
Qed.

Lemma is_winner_iff_mover_stuck_witness :
  let g := SubtractSquareGame.mk true (SS.mk false 0 []) in
  SS.possible_moves_list (SubtractSquareGame.current_state g) = []
  /\ "p1"%string <>
     player_name (SS.is_p1_turn (SubtractSquareGame.current_state g))
  /\ SubtractSquareGame.is_winner g "p1" = true.
Proof.
  cbv zeta. split; [reflexivity |]. split; [discriminate |].
  apply (proj1 is_winner_iff_mover_stuck).
  split; [reflexivity | discriminate].
Defined.

(* ================================================================== *)
(** ** Parsing a move of subtract square                               *)
(* ================================================================== *)

Section IntOfStr.

Lemma lstrip_no_space (l : list ascii) :
  (forall c, In c l -> is_space c = false) -> lstrip l = l.
Proof.
  destruct l as [| c l]; cbn; [reflexivity |].
  intros H. now rewrite (H c (or_introl eq_refl)).
Qed.

Lemma strip_no_space (l : list ascii) :
  (forall c, In c l -> is_space c = false) -> strip l = l.
Proof.
  intros H. unfold strip. rewrite (lstrip_no_space l H).
  rewrite lstrip_no_space; [apply rev_involutive |].
  intros c Hc. apply H. now apply in_rev.
Qed.



Lemma uint_chars_plain (d : Decimal.uint) (c : ascii) :
  In c (uint_chars d) ->
  is_space c = false /\ exists k, digit_of c = Some k.
Proof.
  unfold uint_chars.
  induction d; cbn; try tauto;
    (intros [<- | H]; [split; [reflexivity | eexists; reflexivity] | auto]).
Qed.

Lemma digits_from_uint (d : Decimal.uint) (acc : Z) :
  digits_from acc false (uint_chars d) = Some (uint_value acc d).
Proof.
  unfold uint_chars. revert acc.
  induction d; intros acc; cbn; try reflexivity; apply IHd.
Qed.

Lemma uint_value_acc (d : Decimal.uint) (p : positive) :
  uint_value (Z.pos p) d = Z.pos (Pos.of_uint_acc d p).
Proof.
  revert p. induction d; intros p; cbn [uint_value Pos.of_uint_acc];
    try reflexivity;
    match goal with
    | |- uint_value ?a _ = Z.pos (Pos.of_uint_acc _ ?q) =>
        replace a with (Z.pos q) by lia; apply IHd
    end.
Qed.

Lemma uint_value_of_uint (d : Decimal.uint) :
  uint_value 0 d = Z.of_uint d.
Proof.
  unfold Z.of_uint.
  induction d; cbn [uint_value Pos.of_uint]; try reflexivity;
    try (exact IHd);
    match goal with
    | |- uint_value ?a _ = Z.of_N (N.pos (Pos.of_uint_acc _ ?q)) =>
        replace a with (Z.pos q) by lia; apply uint_value_acc
    end.
Qed.

Lemma unsigned_of_uint (d : Decimal.uint) :
  unsigned_of
    (list_ascii_of_string (DecimalString.NilZero.string_of_uint d))
  = Some (Z.of_uint d).
Proof.
  rewrite <- uint_value_of_uint.
  destruct d; try reflexivity; cbn;
    apply (digits_from_uint d).
Qed.

Lemma nilzero_chars_plain (d : Decimal.uint) (c : ascii) :
  In c (list_ascii_of_string (DecimalString.NilZero.string_of_uint d)) ->
  is_space c = false /\ exists k, digit_of c = Some k.
Proof.
  destruct d; try apply (uint_chars_plain (Decimal.D0 d));
    try apply (uint_chars_plain (Decimal.D1 d));
    try apply (uint_chars_plain (Decimal.D2 d));
    try apply (uint_chars_plain (Decimal.D3 d));
    try apply (uint_chars_plain (Decimal.D4 d));
    try apply (uint_chars_plain (Decimal.D5 d));
    try apply (uint_chars_plain (Decimal.D6 d));
    try apply (uint_chars_plain (Decimal.D7 d));
    try apply (uint_chars_plain (Decimal.D8 d));
    try apply (uint_chars_plain (Decimal.D9 d)).
  cbn. intros [<- | []]. split; [reflexivity | eexists; reflexivity].
Qed.

Lemma nilzero_chars_nonempty (d : Decimal.uint) :
  list_ascii_of_string (DecimalString.NilZero.string_of_uint d) <> [].
Proof. destruct d; discriminate. Qed.

Lemma length_list_ascii_of_string (s : string) :
  List.length (list_ascii_of_string s) = String.length s.
Proof. induction s as [| c s IH]; cbn; [reflexivity | now rewrite IH]. Qed.

Lemma digit_of_range (c : ascii) (k : Z) :
  digit_of c = Some k -> (48 <= N_of_ascii c <= 57)%N.
Proof.
  unfold digit_of.
  destruct (N.leb_spec 48 (N_of_ascii c)), (N.leb_spec (N_of_ascii c) 57);
    cbn; try discriminate. intros _. lia.
Qed.

Lemma digit_is_no_sign (c : ascii) (k : Z) :
  digit_of c = Some k ->
  Ascii.eqb c "-" = false /\ Ascii.eqb c "+" = false.
Proof.
  intros H. split.
  - destruct (Ascii.eqb_spec c "-"); [subst; discriminate | reflexivity].
  - destruct (Ascii.eqb_spec c "+"); [subst; discriminate | reflexivity].
Qed.

Lemma count_digits_all (l : list ascii) :
  (forall c, In c l -> exists k, digit_of c = Some k) ->
  count_digits l = N.of_nat (List.length l).
Proof.
  intros H. unfold count_digits. f_equal. f_equal.
  induction l as [| a l IH]; cbn; [reflexivity |].
  destruct (H a (or_introl eq_refl)) as [k ->]. f_equal.
  apply IH. intros c Hc. apply H. now right.
Qed.

(** The parse of a plain numeral, without and with a minus sign. *)
Lemma int_of_ascii_digits (l : list ascii) (v : Z) :
  l <> [] ->
  (forall c, In c l -> is_space c = false /\ exists k, digit_of c = Some k) ->
  unsigned_of l = Some v ->
  int_of_ascii l
  = (if over_limit (N.of_nat (List.length l)) then Raise ValueError
     else Ok v)
  /\ int_of_ascii ("-"%char :: l)
     = (if over_limit (N.of_nat (List.length l)) then Raise ValueError
        else Ok (- v)).
Proof.
  intros Hne Hplain Hval.
  assert (Hcount : count_digits l = N.of_nat (List.length l)).
  { apply count_digits_all. intros c Hc. apply (Hplain c Hc). }
  split; unfold int_of_ascii.
  - rewrite strip_no_space by (intros c Hc; apply (Hplain c Hc)).
    destruct l as [| c l]; [congruence |].
    destruct (Hplain c (or_introl eq_refl)) as [_ [k Hk]].
    destruct (digit_is_no_sign c k Hk) as [-> ->].
    now rewrite Hval, Hcount.
  - rewrite strip_no_space.
    + cbn [Ascii.eqb Bool.eqb]. cbn. now rewrite Hval, Hcount.
    + intros c [<- | Hc]; [reflexivity | apply (Hplain c Hc)].
Qed.

(** ASCII text is read as it stands. *)
Lemma buffer_of_ascii (l : list ascii) :
  (forall c, In c l -> (N_of_ascii c < 127)%N) ->
  map to_ascii (utf8_decode l) = l.
Proof.
  induction l as [| a l IH]; intros H; [reflexivity |].
  pose proof (H a (or_introl eq_refl)) as Ha.
  cbn [utf8_decode]. cbv zeta.
  destruct (N.ltb_spec (N_of_ascii a) 128) as [_ | Hge]; [| lia].
  cbn [map]. rewrite IH by (intros c Hc; apply H; now right).
  f_equal. unfold to_ascii.
  destruct (N.ltb_spec (N_of_ascii a) 127) as [_ | Hge]; [| lia].
  apply ascii_N_embedding.
Qed.

Lemma numeral_chars_ascii (d : Decimal.int) (c : ascii) :
  In c (list_ascii_of_string (DecimalString.NilZero.string_of_int d)) ->
  (N_of_ascii c < 127)%N.
Proof.
  assert (Hu : forall u c,
             In c (list_ascii_of_string
                     (DecimalString.NilZero.string_of_uint u)) ->
             (N_of_ascii c < 127)%N).
  { intros u c' Hc. destruct (nilzero_chars_plain u c' Hc) as [_ [k Hk]].
    apply digit_of_range in Hk. lia. }
  destruct d as [u | u].
  - apply Hu.
  - change (list_ascii_of_string
              (DecimalString.NilZero.string_of_int (Decimal.Neg u)))
      with ("-"%char :: list_ascii_of_string
                          (DecimalString.NilZero.string_of_uint u)).
    intros [<- | Hc]; [cbn; lia | now apply (Hu u)].
Qed.

(** [int] reads back every numeral of the standard library that is within
    the limit on digits, and refuses the others. *)
Lemma int_of_str_numeral (d : Decimal.int) :
  int_of_str (DecimalString.NilZero.string_of_int d)
  = if over_limit
         (match d with
          | Decimal.Pos u | Decimal.Neg u =>
              N.of_nat
                (String.length (DecimalString.NilZero.string_of_uint u))
          end)
    then Raise ValueError
    else Ok (Z.of_int d).
Proof.
  unfold int_of_str.
  rewrite buffer_of_ascii by apply numeral_chars_ascii.
  destruct d as [u | u].
  - change (DecimalString.NilZero.string_of_int (Decimal.Pos u))
      with (DecimalString.NilZero.string_of_uint u).
    rewrite <- length_list_ascii_of_string.
    apply (int_of_ascii_digits _ (Z.of_uint u)).
    + apply nilzero_chars_nonempty.
    + apply nilzero_chars_plain.
    + apply unsigned_of_uint.
  - change (list_ascii_of_string
              (DecimalString.NilZero.string_of_int (Decimal.Neg u)))
      with ("-"%char :: list_ascii_of_string
                          (DecimalString.NilZero.string_of_uint u)).
    rewrite <- length_list_ascii_of_string.
    apply (int_of_ascii_digits _ (Z.of_uint u)).
    + apply nilzero_chars_nonempty.
    + apply nilzero_chars_plain.
    + apply unsigned_of_uint.
Qed.

Lemma over_limit_iff (digits : N) :
  over_limit digits = true <-> (4300 < digits)%N.
Proof.
  unfold over_limit, int_max_str_digits. cbn [N.ltb N.compare andb].
  apply N.ltb_lt.
Qed.

Lemma int_of_str_decimal (z : Z) :
  int_of_str (decimal_of_Z z)
  = if over_limit (decimal_digits z) then Raise ValueError else Ok z.
Proof.
  unfold decimal_of_Z, decimal_digits. rewrite int_of_str_numeral.
  rewrite DecimalZ.of_to. now destruct (Z.to_int z).
Qed.

Lemma str_of_int_decimal (z : Z) :
  str_of_int z
  = if over_limit (decimal_digits z) then Raise ValueError
    else Ok (decimal_of_Z z).
Proof.
  unfold str_of_int, decimal_of_Z, decimal_digits.
  now destruct (Z.to_int z).
Qed.

(** What [str] prints, [int] reads back. *)
Lemma int_of_str_of_int (z : Z) (text : string) :
  str_of_int z = Ok text -> int_of_str text = Ok z.
Proof.
  rewrite str_of_int_decimal. intros H.
  destruct (over_limit (decimal_digits z)) eqn:E; [discriminate |].
  injection H as <-. now rewrite int_of_str_decimal, E.
Qed.






End IntOfStr.








(* ================================================================== *)
(** ** Further properties: subtract square                             *)
(* ================================================================== *)

(** X1: in a state whose cached list is up to date and whose value is not
    negative, [is_valid_move] accepts exactly the squares of the positive
    integers that do not exceed the value; so 0 and the negative numbers
    are never accepted. *)
Theorem ss_is_valid_move_iff_square (s : SS.state) (m : Z) :
  ss_consistent s ->
  (SSGameCurrentState.is_valid_move s m = true <->
   exists k, 1 <= k /\ m = k * k /\ m <= SS.current_val s)
  /\ (m <= 0 -> SSGameCurrentState.is_valid_move s m = false).
Proof.
  intros Hs. pose proof Hs as [Hv Hc].
  assert (Hiff : SSGameCurrentState.is_valid_move s m = true <->
                 exists k, 1 <= k /\ m = k * k /\ m <= SS.current_val s).
  { unfold SSGameCurrentState.is_valid_move.
    rewrite contains_Z_In, Hc, (get_possible_moves_squares s Hv),
      (in_squares_upto _ m Hv).
    split; intros (k & Hk & E & Hle); exists k; subst; auto. }
  split; [exact Hiff |].
  intros Hm. apply not_true_is_false. intros E.
  apply Hiff in E. destruct E as (k & Hk & -> & _). nia.
Qed.

Lemma ss_is_valid_move_iff_square_witness :
  ss_consistent (SS.mk true 10 [1; 4; 9])
  /\ SSGameCurrentState.is_valid_move (SS.mk true 10 [1; 4; 9]) 0 = false.
Proof.
  assert (H : ss_consistent (SS.mk true 10 [1; 4; 9])).
  { split; [cbn; lia | reflexivity]. }
  split; [exact H |].
  apply (proj2 (ss_is_valid_move_iff_square _ 0 H)). lia.
Defined.

(** X2: the number of moves that [get_possible_moves] lists is the integer
    square root of the value (none for a value that is 0 or negative), and
    the move 1 is listed as soon as the value is at least 1. *)
Theorem ss_moves_count_is_sqrt (s : SS.state) :
  Z.of_nat (List.length (SSGameCurrentState.get_possible_moves s))
  = Z.sqrt (SS.current_val s)
  /\ (1 <= SS.current_val s ->
      In 1 (SSGameCurrentState.get_possible_moves s)).
Proof.
  destruct (Z_lt_le_dec (SS.current_val s) 0) as [Hneg | Hv].
  - rewrite (get_possible_moves_negative s Hneg).
    split; [| lia]. cbn. symmetry. apply Z.sqrt_neg. exact Hneg.
  - rewrite (get_possible_moves_squares s Hv). split.
    + unfold squares_upto. rewrite !length_map, length_seq.
      apply Z2Nat.id, Z.sqrt_nonneg.
    + intros H1. apply in_squares_upto; [exact Hv |]. exists 1. lia.
Qed.

Lemma ss_moves_count_is_sqrt_witness :
  1 <= SS.current_val (SS.mk true 17 [])
  /\ In 1 (SSGameCurrentState.get_possible_moves (SS.mk true 17 [])).
Proof.
  split; [cbn; lia |].
  apply (proj2 (ss_moves_count_is_sqrt (SS.mk true 17 []))). cbn. lia.
Defined.

(** X3: a sequence of validated moves subtracts their sum from the value
    and hands the turn over once per move: after an even number of moves
    the same player is to move, after an odd number the other one. *)
Theorem ss_play_value_and_turn (moves : list Z) (s s' : SS.state) :
  ss_play s moves = Some s' ->
  SS.current_val s' = SS.current_val s - fold_right Z.add 0 moves
  /\ SS.is_p1_turn s'
     = (if Nat.even (List.length moves) then SS.is_p1_turn s
        else negb (SS.is_p1_turn s)).
Proof.
  revert s. induction moves as [| m moves IH]; intros s Hp; cbn in Hp.
  - injection Hp as <-. cbn. split; [lia | reflexivity].
  - destruct (SSGameCurrentState.is_valid_move s m); [| discriminate].
    destruct (IH _ Hp) as [Hval Hturn]. cbn in Hval, Hturn.
    split.
    + cbn [fold_right]. lia.
    + rewrite Hturn. cbn [List.length].
      rewrite Nat.even_succ, <- Nat.negb_even.
      destruct (Nat.even (List.length moves)); cbn;
        [reflexivity | apply negb_involutive].
Qed.

Lemma ss_play_value_and_turn_witness :
  ss_play (SS.mk true 10 [1; 4; 9]) [4; 1; 4] = Some (SS.mk false 1 [1])
  /\ SS.current_val (SS.mk false 1 [1]) = 10 - (4 + (1 + (4 + 0))).
Proof.
  assert (H : ss_play (SS.mk true 10 [1; 4; 9]) [4; 1; 4]
              = Some (SS.mk false 1 [1])) by reflexivity.
  split; [exact H |].
  exact (proj1 (ss_play_value_and_turn _ _ _ H)).
Defined.

(** X4: [make_move] does not validate.  A move larger than the value
    leaves a negative value with an empty list of moves: the game is over,
    and [is_winner] names the player who made that move the winner. *)
Theorem ss_make_move_oversize (g : SubtractSquareGame.game) (s : SS.state)
  (m : Z) :
  SS.current_val s < m ->
  SubtractSquareGame.current_state g = SSGameCurrentState.make_move s m ->
  SS.current_val (SSGameCurrentState.make_move s m) < 0
  /\ SS.possible_moves_list (SSGameCurrentState.make_move s m) = []
  /\ is_over (inl (SSGameCurrentState.make_move s m)) = Ok true
  /\ SubtractSquareGame.is_winner g (player_name (SS.is_p1_turn s)) = true
  /\ SubtractSquareGame.is_winner g (player_name (negb (SS.is_p1_turn s)))
     = false.
Proof.
  intros Hm Hg.
  assert (Hneg : SS.current_val (SSGameCurrentState.make_move s m) < 0)
    by (cbn; lia).
  assert (Hnil : SS.possible_moves_list (SSGameCurrentState.make_move s m)
                 = []).
  { cbn. apply (get_possible_moves_negative
                  (SS.mk (negb (SS.is_p1_turn s)) (SS.current_val s - m)
                         (SS.possible_moves_list s))).
    cbn. lia. }
  split; [exact Hneg |]. split; [exact Hnil |]. split.
  - cbn [is_over].
    now rewrite (get_possible_moves_negative _ Hneg).
  - unfold SubtractSquareGame.is_winner. rewrite Hg, Hnil. cbn.
    destruct (SS.is_p1_turn s); split; reflexivity.
Qed.

Lemma ss_make_move_oversize_witness :
  let s := SS.mk true 3 [1] in
  let g := SubtractSquareGame.mk true (SSGameCurrentState.make_move s 4) in
  SS.current_val s < 4
  /\ SubtractSquareGame.is_winner g "p1" = true.
Proof.
  cbv zeta. split; [cbn; lia |].
  exact (proj1 (proj2 (proj2 (proj2
    (ss_make_move_oversize
       (SubtractSquareGame.mk true
          (SSGameCurrentState.make_move (SS.mk true 3 [1]) 4))
       (SS.mk true 3 [1]) 4 ltac:(cbn; lia) eq_refl))))).
Defined.

Lemma ss_no_moves_iff_not_positive (s : SS.state) :
  SSGameCurrentState.get_possible_moves s = [] <-> SS.current_val s <= 0.
Proof.
  destruct (Z_lt_le_dec (SS.current_val s) 0) as [Hneg | Hv].
  - rewrite (get_possible_moves_negative s Hneg). split; [lia | reflexivity].
  - rewrite (get_possible_moves_squares s Hv). split.
    + intros E. destruct (Z_le_gt_dec (SS.current_val s) 0) as [| Hpos]; auto.
      assert (Hin : In 1 (squares_upto (SS.current_val s))).
      { apply in_squares_upto; [exact Hv |]. exists 1. lia. }
      rewrite E in Hin. destruct Hin.
    + intros Hle. replace (SS.current_val s) with 0 by lia. reflexivity.
Qed.

(** X5: [SubtractSquareGame.__init__] on the line typed at the prompt.  A
    line that [int] refuses makes the constructor raise that error; a line
    that reads as [v] gives a game whose state has the value [v], the
    chosen first player to move and an up-to-date list of moves.  That
    game is over from the start exactly when [v] is 0 or negative, and
    then the player who was to move first has lost. *)
Theorem ss_game_init_from_input (b : bool) (starting_num : string) :
  (forall e, int_of_str starting_num = Raise e ->
             SubtractSquareGame.__init__ b starting_num = Raise e)
  /\ (forall v,
        int_of_str starting_num = Ok v ->
        exists g,
          SubtractSquareGame.__init__ b starting_num = Ok g
          /\ SubtractSquareGame.is_p1_turn g = b
          /\ SS.is_p1_turn (SubtractSquareGame.current_state g) = b
          /\ SS.current_val (SubtractSquareGame.current_state g) = v
          /\ SS.possible_moves_list (SubtractSquareGame.current_state g)
             = SSGameCurrentState.get_possible_moves
                 (SubtractSquareGame.current_state g)
          /\ (is_over (inl (SubtractSquareGame.current_state g)) = Ok true
              <-> v <= 0)
          /\ (v <= 0 ->
              SubtractSquareGame.is_winner g (player_name (negb b)) = true
              /\ SubtractSquareGame.is_winner g (player_name b) = false)).
Proof.
  split.
  - intros e He. unfold SubtractSquareGame.__init__,
      SSGameCurrentState.__init__. cbn. now rewrite He.
  - intros v Hv.
    unfold SubtractSquareGame.__init__, SSGameCurrentState.__init__.
    cbn. rewrite Hv. cbn. eexists. split; [reflexivity |]. cbn.
    set (s := SS.mk b v []).
    assert (Hnil : SSGameCurrentState.get_possible_moves s = [] <-> v <= 0)
      by apply (ss_no_moves_iff_not_positive s).
    repeat split.
    + intros [= E]. apply Hnil.
      now apply (list_eqb_eq Z.eqb Z.eqb_eq) in E.
    + intros Hle. apply Hnil in Hle. cbn [is_over].
      unfold SSGameCurrentState.get_possible_moves in *. cbn in *.
      now rewrite Hle.
    + unfold SubtractSquareGame.is_winner. cbn.
      apply Hnil in H. rewrite H. now destruct b.
    + unfold SubtractSquareGame.is_winner. cbn.
      apply Hnil in H. rewrite H. now destruct b.
Qed.

Lemma ss_game_init_from_input_witness :
  int_of_str "ll" = Raise ValueError
  /\ SubtractSquareGame.__init__ true "ll" = Raise ValueError.
Proof.
  split; [reflexivity |].
  apply (proj1 (ss_game_init_from_input true "ll")). reflexivity.
Defined.

(** X6: what [str] prints the constructor reads back.  When [str(v)]
    returns a text, which it does for an integer of at most 4300 digits,
    the constructor of the state builds from that text the state it builds
    from [v], and the game built on that typed line holds that state.  For
    a longer integer [str(v)] raises [ValueError], and so does the
    constructor given its decimal text. *)
Theorem ss_init_from_decimal_text (b : bool) (v : Z) :
  (forall text,
      str_of_int v = Ok text ->
      SSGameCurrentState.__init__ b (PStr text)
      = SSGameCurrentState.__init__ b (PInt v)
      /\ exists s,
           SSGameCurrentState.__init__ b (PInt v) = Ok s
           /\ SS.current_val s = v
           /\ SubtractSquareGame.__init__ b text
              = Ok (SubtractSquareGame.mk b s))
  /\ ((exists text, str_of_int v = Ok text)
      <-> (decimal_digits v <= 4300)%N)
  /\ ((4300 < decimal_digits v)%N ->
      str_of_int v = Raise ValueError
      /\ SSGameCurrentState.__init__ b (PStr (decimal_of_Z v))
         = Raise ValueError).
Proof.
  split; [| split].
  - intros text Htext. pose proof (int_of_str_of_int v text Htext) as E.
    unfold SubtractSquareGame.__init__, SSGameCurrentState.__init__. cbn.
    rewrite E. cbn. split; [reflexivity |].
    eexists. split; [reflexivity |]. split; reflexivity.
  - rewrite str_of_int_decimal.
    destruct (over_limit (decimal_digits v)) eqn:E.
    + apply over_limit_iff in E. split; [intros [text [=]] | lia].
    + split; [| eauto]. intros _.
      destruct (N.le_gt_cases (decimal_digits v) 4300) as [H | H];
        [exact H |].
      apply over_limit_iff in H. congruence.
  - intros H. apply over_limit_iff in H. split.
    + now rewrite str_of_int_decimal, H.
    + unfold SSGameCurrentState.__init__. cbn.
      now rewrite int_of_str_decimal, H.
Qed.

Lemma ss_init_from_decimal_text_witness :
  str_of_int 103 = Ok "103"%string
  /\ SSGameCurrentState.__init__ false (PStr "103")
     = SSGameCurrentState.__init__ false (PInt 103).
Proof.
  split; [reflexivity |].
  exact (proj1 (proj1 (ss_init_from_decimal_text false 103)
                  "103"%string eq_refl)).
Defined.

Section StringFacts.

Lemma list_ascii_of_string_app (a b : string) :
  list_ascii_of_string (a ++ b)
  = (list_ascii_of_string a ++ list_ascii_of_string b)%list.
Proof. induction a as [| c a IH]; cbn; [reflexivity | now rewrite IH]. Qed.

Lemma list_ascii_of_string_inj (a b : string) :
  list_ascii_of_string a = list_ascii_of_string b -> a = b.
Proof.
  intros E. rewrite <- (string_of_list_ascii_of_string a), E.
  apply string_of_list_ascii_of_string.
Qed.

Lemma string_app_cancel_r (a b c : string) :
  (a ++ c)%string = (b ++ c)%string -> a = b.
Proof.
  intros E. apply list_ascii_of_string_inj.
  apply (f_equal list_ascii_of_string) in E.
  rewrite !list_ascii_of_string_app in E.
  now apply app_inv_tail in E.
Qed.

Lemma str_of_int_inj (x y : Z) (text : string) :
  str_of_int x = Ok text -> str_of_int y = Ok text -> x = y.
Proof.
  intros Hx Hy. apply int_of_str_of_int in Hx, Hy.
  rewrite Hx in Hy. now injection Hy.
Qed.

End StringFacts.

(** X7: the line that [__str__] prints for a subtraction state tells the
    player to move and the value: two states with the same line have the
    same active player and the same value.  A line is printed exactly when
    the value has at most 4300 digits; otherwise [str] raises. *)
Theorem ss_str_determines_turn_and_value (s1 s2 : SS.state) (line : string) :
  (SSGameCurrentState.__str__ s1 = Ok line ->
   SSGameCurrentState.__str__ s2 = Ok line ->
   SS.is_p1_turn s1 = SS.is_p1_turn s2
   /\ SS.current_val s1 = SS.current_val s2)
  /\ ((exists l, SSGameCurrentState.__str__ s1 = Ok l)
      <-> (decimal_digits (SS.current_val s1) <= 4300)%N).
Proof.
  unfold SSGameCurrentState.__str__, player_name. split.
  - destruct (str_of_int (SS.current_val s1)) as [t1 | e1] eqn:E1;
      [| discriminate].
    destruct (str_of_int (SS.current_val s2)) as [t2 | e2] eqn:E2;
      [| discriminate].
    cbn [Py.bind]. intros [= <-] [= H].
    destruct (SS.is_p1_turn s1), (SS.is_p1_turn s2); cbn in H;
      try discriminate; (split; [reflexivity |]);
      injection H as H; apply string_app_cancel_r in H; subst t2;
      exact (str_of_int_inj _ _ t1 E1 E2).
  - rewrite str_of_int_decimal.
    destruct (over_limit (decimal_digits (SS.current_val s1))) eqn:E; cbn.
    + apply over_limit_iff in E. split; [intros [l [=]] | lia].
    + split; [| eauto]. intros _.
      destruct (N.le_gt_cases (decimal_digits (SS.current_val s1)) 4300)
        as [H | H]; [exact H |].
      apply over_limit_iff in H. congruence.
Qed.

Lemma ss_str_determines_turn_and_value_witness :
  SSGameCurrentState.__str__ (SS.mk false 1 [1])
  = Ok "p2's turn to move; the current value is 1."%string
  /\ SS.current_val (SS.mk false 1 [1]) = SS.current_val (SS.mk false 1 []).
Proof.
  split; [reflexivity |].
  exact (proj2 (proj1 (ss_str_determines_turn_and_value
                         (SS.mk false 1 [1]) (SS.mk false 1 []) _)
                  eq_refl eq_refl)).
Defined.

(* ================================================================== *)
(** ** Further properties: chopsticks                                  *)
(* ================================================================== *)

Section ChopsticksLegalPlay.
Import CSGameCurrentState.

Lemma survives_canonical (s : CS.state) (m : string) :
  survives s m = true -> In m canonical_moves.
Proof.
  unfold survives. destruct (sides_of m) as [[src tgt] |] eqn:E;
    [| discriminate].
  intros _. apply sides_of_inv in E. cbn.
  destruct E as [(-> & _) | [(-> & _) | [(-> & _) | (-> & _)]]]; auto.
Qed.

Lemma filtered_moves_nil_iff (s : CS.state) :
  four_hands s ->
  both_dead s (negb (CS.is_p1_turn s)) = false ->
  (filtered_moves s = [] <-> both_dead s (CS.is_p1_turn s) = true).
Proof.
  intros H4 Hopp. destruct (four_hands_inv s H4) as (a & b & c & d & Hcv).
  unfold filtered_moves, survives, both_dead, source_hand, target_hand,
    hand, alive in *.
  rewrite Hcv in *. cbn in *.
  destruct (CS.is_p1_turn s); cbn in *;
    destruct (a =? 0), (b =? 0), (c =? 0), (d =? 0); cbn in *;
    split; intros H; try reflexivity; try discriminate.
Qed.

Lemma cs_play_dead_stay_dead (moves : list string) :
  forall s s', cs_reachable s -> cs_play s moves = Some s' ->
    forall i, nth_error (CS.current_value s) i = Some 0 ->
              nth_error (CS.current_value s') i = Some 0.
Proof.
  induction moves as [| m moves IH]; intros s s' Hs Hp i Hi; cbn in Hp.
  - now injection Hp as <-.
  - destruct (is_valid_move s m) as [[|] |] eqn:Hv; try discriminate.
    destruct (make_move s m) as [s1 |] eqn:Hmk; try discriminate.
    apply (IH s1 s' (cs_reach_move s s1 m Hs Hv Hmk) Hp).
    destruct (cs_reachable_invariant s Hs) as (H4 & _ & _).
    pose proof (legal_move_survives s m Hs Hv) as Hsv.
    destruct (legal_move_applies s m H4 Hv)
      as (src & tgt & s1' & Hsd & Hmk' & _ & _ & _ & Hrest).
    rewrite Hmk in Hmk'. injection Hmk' as <-.
    rewrite Hrest; [exact Hi |].
    intros ->. unfold survives in Hsv. rewrite Hsd in Hsv.
    apply andb_prop in Hsv. destruct Hsv as [_ Ht].
    unfold alive, target_hand, hand in Ht.
    rewrite (nth_error_nth _ _ 0 Hi) in Ht. discriminate.
Qed.

End ChopsticksLegalPlay.

(** X8: in every state of legal play [get_possible_moves] returns the
    canonical moves [ll, lr, rl, rr], in that order, without those whose
    source hand or target hand is dead; so [is_valid_move] accepts a string
    exactly when it is a canonical move from a live hand onto a live
    hand. *)
Theorem cs_legal_play_moves_filtered (s : CS.state) :
  cs_reachable s ->
  CSGameCurrentState.get_possible_moves s = Ok (filtered_moves s)
  /\ forall m, CSGameCurrentState.is_valid_move s m = Ok true
               <-> survives s m = true.
Proof.
  intros Hs. destruct (cs_reachable_invariant s Hs) as (H4 & _ & Hopp).
  pose proof (get_possible_moves_filtered s H4 (or_introl Hopp)) as E.
  split; [exact E |]. intros m.
  rewrite is_valid_move_In. split.
  - intros (moves & Hmoves & Hin). rewrite E in Hmoves.
    injection Hmoves as <-. now apply filter_In in Hin.
  - intros Hsv. exists (filtered_moves s). split; [exact E |].
    apply filter_In. split; [now apply survives_canonical in Hsv | exact Hsv].
Qed.

Lemma cs_legal_play_moves_filtered_witness :
  let s := CS.mk false [3; 1; 0; 1] canonical_moves ["rl"; "rr"]%string in
  cs_reachable s
  /\ CSGameCurrentState.get_possible_moves s = Ok ["rl"; "rr"]%string.
Proof.
  cbv zeta.
  assert (Hs : cs_reachable
                 (CS.mk false [3; 1; 0; 1] canonical_moves
                        ["rl"; "rr"]%string)).
  { apply (cs_play_from_start true ["ll"; "ll"; "ll"]%string).
    vm_compute. reflexivity. }
  split; [exact Hs |].
  rewrite (proj1 (cs_legal_play_moves_filtered _ Hs)). reflexivity.
Defined.

(** X9: in legal play the game is over exactly when both hands of the
    player to move are dead; [is_over] says so, and [is_winner] then names
    every queried player but the one to move. *)
Theorem cs_legal_play_over_iff_mover_dead (g : ChopsticksGame.game)
  (player : string) :
  cs_reachable (ChopsticksGame.current_state g) ->
  (CSGameCurrentState.get_possible_moves (ChopsticksGame.current_state g)
   = Ok []
   <-> both_dead (ChopsticksGame.current_state g)
                 (CS.is_p1_turn (ChopsticksGame.current_state g)) = true)
  /\ (is_over (inr (ChopsticksGame.current_state g)) = Ok true
      <-> both_dead (ChopsticksGame.current_state g)
                    (CS.is_p1_turn (ChopsticksGame.current_state g)) = true)
  /\ (ChopsticksGame.is_winner g player = Ok true
      <-> both_dead (ChopsticksGame.current_state g)
                    (CS.is_p1_turn (ChopsticksGame.current_state g)) = true
          /\ player <>
             player_name (CS.is_p1_turn (ChopsticksGame.current_state g))).
Proof.
  set (s := ChopsticksGame.current_state g). intros Hs.
  destruct (cs_reachable_invariant s Hs) as (H4 & _ & Hopp).
  pose proof (get_possible_moves_filtered s H4 (or_introl Hopp)) as E.
  pose proof (filtered_moves_nil_iff s H4 Hopp) as Hnil.
  assert (Hgpm : CSGameCurrentState.get_possible_moves s = Ok []
                 <-> both_dead s (CS.is_p1_turn s) = true).
  { rewrite E, <- Hnil. split; [now intros [= ->] | now intros ->]. }
  split; [exact Hgpm |]. split.
  - rewrite <- Hnil. cbn [is_over]. rewrite E. cbn. split.
    + intros [= H]. now apply (list_eqb_eq String.eqb String.eqb_eq) in H.
    + intros ->. reflexivity.
  - rewrite <- Hnil. unfold ChopsticksGame.is_winner. fold s.
    rewrite E. set (fm := filtered_moves s) in *. clearbody fm.
    cbn. unfold player_name.
    destruct fm as [| x l]; cbn.
    + destruct (CS.is_p1_turn s);
        [destruct (String.eqb_spec player "p1")
        | destruct (String.eqb_spec player "p2")]; cbn;
        (split; [intros H; try discriminate; auto
                | intros [_ H]; try reflexivity; congruence]).
    + split; [discriminate | intros [H _]; discriminate].
Qed.

Lemma cs_legal_play_over_iff_mover_dead_witness :
  let s := CS.mk false [4; 1; 0; 0] ["lr"; "rr"]%string [] in
  cs_reachable s
  /\ ChopsticksGame.is_winner (ChopsticksGame.mk true s) "p1" = Ok true.
Proof.
  cbv zeta.
  assert (Hs : cs_reachable
                 (CS.mk false [4; 1; 0; 0] ["lr"; "rr"]%string [])).
  { apply (cs_play_from_start true ["ll"; "ll"; "ll"; "rl"; "lr"]%string).
    vm_compute. reflexivity. }
  split; [exact Hs |].
  apply (proj2 (proj2 (cs_legal_play_over_iff_mover_dead
                         (ChopsticksGame.mk true _) "p1"%string Hs))).
  split; [reflexivity | discriminate].
Defined.

(** X10: in legal play a dead hand stays dead: a hand that is 0 in a
    state is 0 in every state that a sequence of legal moves reaches from
    it. *)
Theorem cs_legal_play_dead_hands_stay_dead (moves : list string)
  (s s' : CS.state) (i : nat) :
  cs_reachable s ->
  cs_play s moves = Some s' ->
  nth_error (CS.current_value s) i = Some 0 ->
  nth_error (CS.current_value s') i = Some 0.
Proof.
  intros Hs Hp. now apply (cs_play_dead_stay_dead moves s s').
Qed.

Lemma cs_legal_play_dead_hands_stay_dead_witness :
  let s := CS.mk false [3; 1; 0; 1] canonical_moves ["rl"; "rr"]%string in
  cs_reachable s
  /\ cs_play s ["rl"; "lr"]%string
     = Some (CS.mk false [4; 1; 0; 0] ["lr"; "rr"]%string [])
  /\ nth_error (CS.current_value
                  (CS.mk false [4; 1; 0; 0] ["lr"; "rr"]%string [])) 2
     = Some 0.
Proof.
  cbv zeta.
  assert (Hs : cs_reachable
                 (CS.mk false [3; 1; 0; 1] canonical_moves
                        ["rl"; "rr"]%string)).
  { apply (cs_play_from_start true ["ll"; "ll"; "ll"]%string).
    vm_compute. reflexivity. }
  split; [exact Hs |].
  assert (Hp : cs_play (CS.mk false [3; 1; 0; 1] canonical_moves
                              ["rl"; "rr"]%string)
                 ["rl"; "lr"]%string
               = Some (CS.mk false [4; 1; 0; 0] ["lr"; "rr"]%string []))
    by (vm_compute; reflexivity).
  split; [exact Hp |].
  exact (cs_legal_play_dead_hands_stay_dead _ _ _ 2%nat Hs Hp eq_refl).
Defined.

Section ChopsticksAnyMove.
Import CSGameCurrentState.

(** The dispatch of [make_move] treats a string that is none of [ll],
    [lr], [rl] as [rr]. *)
Lemma make_move_default (s : CS.state) (m : string) :
  exists m', In m' canonical_moves /\ make_move s m = make_move s m'.
Proof.
  destruct (String.eqb_spec m "ll") as [-> | Hll];
    [exists "ll"%string; cbn; auto |].
  destruct (String.eqb_spec m "lr") as [-> | Hlr];
    [exists "lr"%string; cbn; auto |].
  destruct (String.eqb_spec m "rl") as [-> | Hrl];
    [exists "rl"%string; cbn; auto |].
  exists "rr"%string. split; [cbn; auto |].
  unfold make_move.
  apply String.eqb_neq in Hll, Hlr, Hrl. now rewrite Hll, Hlr, Hrl.
Qed.

Lemma make_move_any (s : CS.state) (m : string) :
  four_hands s ->
  exists s',
    make_move s m = Ok s'
    /\ four_hands s'
    /\ CS.is_p1_turn s' = negb (CS.is_p1_turn s)
    /\ (hands_in_range s -> hands_in_range s').
Proof.
  intros H4. destruct (make_move_default s m) as (m' & Hin & ->).
  destruct (canonical_sides m' Hin) as (src & tgt & Hsd).
  destruct (make_move_canonical s m' src tgt H4 Hsd)
    as (s' & Hmk & Hturn & H4' & Htgt & Hrest).
  exists s'. repeat split; try assumption.
  intros Hr. unfold hands_in_range in *. rewrite Forall_forall in *.
  intros x Hx. apply In_nth_error in Hx. destruct Hx as [i Hi].
  destruct (Nat.eq_dec i (hand_index (negb (CS.is_p1_turn s)) tgt))
    as [-> | Hne].
  - rewrite Htgt in Hi. injection Hi as <-.
    pose proof (Z.mod_pos_bound (source_hand s src + target_hand s tgt) 5).
    lia.
  - rewrite (Hrest i Hne) in Hi. apply nth_error_In in Hi. now apply Hr.
Qed.

Lemma cs_apply_any (moves : list string) :
  forall s, four_hands s -> hands_in_range s ->
    exists s',
      cs_apply s moves = Ok s'
      /\ four_hands s' /\ hands_in_range s'
      /\ CS.is_p1_turn s'
         = (if Nat.even (List.length moves) then CS.is_p1_turn s
            else negb (CS.is_p1_turn s)).
Proof.
  induction moves as [| m moves IH]; intros s H4 Hr.
  - exists s. cbn. auto.
  - destruct (make_move_any s m H4) as (s1 & Hmk & H41 & Hturn & Hr1).
    destruct (IH s1 H41 (Hr1 Hr)) as (s' & Hap & H4' & Hr' & Hturn').
    exists s'. cbn [cs_apply]. rewrite Hmk. cbn [Py.bind].
    repeat split; try assumption.
    rewrite Hturn', Hturn. cbn [List.length].
    rewrite Nat.even_succ, <- Nat.negb_even.
    destruct (Nat.even (List.length moves)); cbn;
      [reflexivity | apply negb_involutive].
Qed.

(** [get_possible_moves] does not read the cached lists. *)
Lemma get_possible_moves_no_cache (t : bool) (v : list Z)
  (c1 c2 c1' c2' : list string) :
  get_possible_moves (CS.mk t v c1 c2) = get_possible_moves (CS.mk t v c1' c2').
Proof. reflexivity. Qed.

End ChopsticksAnyMove.

(** X11: [make_move] never fails on a game started by the constructor,
    whatever strings it is given, legal or not: any sequence of calls
    returns a state of four hands, each within 0..4, in which the player
    to move is the first player after an even number of calls and the
    other one after an odd number. *)
Theorem cs_make_move_any_sequence (is_p1_turn : bool) (moves : list string) :
  exists s,
    cs_apply (CSGameCurrentState.__init__ is_p1_turn) moves = Ok s
    /\ four_hands s
    /\ hands_in_range s
    /\ CS.is_p1_turn s
       = (if Nat.even (List.length moves) then is_p1_turn
          else negb is_p1_turn).
Proof.
  apply (cs_apply_any moves (CSGameCurrentState.__init__ is_p1_turn)).
  - reflexivity.
  - unfold hands_in_range. cbn. repeat constructor; lia.
Qed.

(** X12: [make_move] refreshes one cached list only: in the state it
    returns, the list cached for the player now to move is what
    [get_possible_moves] returns there, and the list cached for the player
    who just moved is the one the old state held. *)
Theorem cs_make_move_refreshes_movers_cache (s s' : CS.state) (m : string) :
  CSGameCurrentState.make_move s m = Ok s' ->
  CSGameCurrentState.get_possible_moves s'
  = Ok (if CS.is_p1_turn s' then CS.possible_moves_p1 s'
        else CS.possible_moves_p2 s')
  /\ (if CS.is_p1_turn s' then CS.possible_moves_p2 s' = CS.possible_moves_p2 s
      else CS.possible_moves_p1 s' = CS.possible_moves_p1 s).
Proof.
  destruct s as [t v c1 c2]. unfold CSGameCurrentState.make_move.
  cbn [CS.is_p1_turn CS.current_value CS.possible_moves_p1
       CS.possible_moves_p2].
  destruct (getitem v 0) as [a |]; [| discriminate].
  destruct (getitem v 1) as [b |]; [| discriminate].
  destruct (getitem v 2) as [c |]; [| discriminate].
  destruct (getitem v 3) as [d |]; [| discriminate].
  destruct t; cbn -[CSGameCurrentState.get_possible_moves];
    match goal with
    | |- context [CSGameCurrentState.get_possible_moves ?st] =>
        destruct (CSGameCurrentState.get_possible_moves st)
          as [moves |] eqn:E
    end; try discriminate;
    cbn -[CSGameCurrentState.get_possible_moves]; intros [= <-];
    cbn -[CSGameCurrentState.get_possible_moves];
    (split; [| reflexivity]); rewrite <- E;
    apply get_possible_moves_no_cache.
Qed.

Lemma cs_make_move_refreshes_movers_cache_witness :
  let s := CS.mk true [3; 1; 2; 1] canonical_moves canonical_moves in
  exists s',
    CSGameCurrentState.make_move s "ll" = Ok s'
    /\ CSGameCurrentState.get_possible_moves s' = Ok ["rl"; "rr"]%string
    /\ CS.possible_moves_p2 s' = ["rl"; "rr"]%string.
Proof.
  cbv zeta.
  exists (CS.mk false [3; 1; 0; 1] canonical_moves ["rl"; "rr"]%string).
  assert (Hmk : CSGameCurrentState.make_move
                  (CS.mk true [3; 1; 2; 1] canonical_moves canonical_moves)
                  "ll"
                = Ok (CS.mk false [3; 1; 0; 1] canonical_moves
                            ["rl"; "rr"]%string)) by reflexivity.
  split; [exact Hmk |].
  split; [| reflexivity].
  exact (proj1 (cs_make_move_refreshes_movers_cache _ _ _ Hmk)).
Defined.

Section StateEquality.

Lemma ss_eq_iff (s o : SS.state) :
  SSGameCurrentState.__eq__ s (SSObj o) = true <-> s = o.
Proof.
  destruct s as [t v l], o as [t' v' l']. cbn.
  rewrite !andb_true_iff, eqb_true_iff, Z.eqb_eq,
    (list_eqb_eq Z.eqb Z.eqb_eq).
  split; [intros [[-> ->] ->]; reflexivity | intros [= -> -> ->]; auto].
Qed.

Lemma cs_eq_iff (s o : CS.state) :
  CSGameCurrentState.__eq__ s (CSObj o) = true <->
  CS.is_p1_turn s = CS.is_p1_turn o
  /\ CS.current_value s = CS.current_value o
  /\ Permutation (CS.possible_moves_p1 s) (CS.possible_moves_p1 o)
  /\ Permutation (CS.possible_moves_p2 s) (CS.possible_moves_p2 o).
Proof.
  cbn. rewrite !andb_true_iff, eqb_true_iff, (list_eqb_eq Z.eqb Z.eqb_eq),
    !sorted_eqb_iff. tauto.
Qed.

End StateEquality.

(** X13: [==] is an equivalence on the states of each game: every state is
    equal to itself, equality does not depend on the side a state is
    written on, and two states equal to a third are equal. *)
Theorem state_eq_is_equivalence :
  (forall s : SS.state, SSGameCurrentState.__eq__ s (SSObj s) = true)
  /\ (forall s o : SS.state,
        SSGameCurrentState.__eq__ s (SSObj o)
        = SSGameCurrentState.__eq__ o (SSObj s))
  /\ (forall s o u : SS.state,
        SSGameCurrentState.__eq__ s (SSObj o) = true ->
        SSGameCurrentState.__eq__ o (SSObj u) = true ->
        SSGameCurrentState.__eq__ s (SSObj u) = true)
  /\ (forall s : CS.state, CSGameCurrentState.__eq__ s (CSObj s) = true)
  /\ (forall s o : CS.state,
        CSGameCurrentState.__eq__ s (CSObj o)
        = CSGameCurrentState.__eq__ o (CSObj s))
  /\ (forall s o u : CS.state,
        CSGameCurrentState.__eq__ s (CSObj o) = true ->
        CSGameCurrentState.__eq__ o (CSObj u) = true ->
        CSGameCurrentState.__eq__ s (CSObj u) = true).
Proof.
  repeat split.
  - intros s. now apply ss_eq_iff.
  - intros s o.
    destruct (SSGameCurrentState.__eq__ s (SSObj o)) eqn:E1,
             (SSGameCurrentState.__eq__ o (SSObj s)) eqn:E2; try reflexivity.
    + apply ss_eq_iff in E1. subst o.
      rewrite (proj2 (ss_eq_iff s s) eq_refl) in E2. discriminate.
    + apply ss_eq_iff in E2. subst o.
      rewrite (proj2 (ss_eq_iff s s) eq_refl) in E1. discriminate.
  - intros s o u H1 H2. apply ss_eq_iff in H1, H2. apply ss_eq_iff.
    congruence.
  - intros s. apply cs_eq_iff. repeat split; reflexivity.
  - intros s o.
    destruct (CSGameCurrentState.__eq__ s (CSObj o)) eqn:E1,
             (CSGameCurrentState.__eq__ o (CSObj s)) eqn:E2; try reflexivity.
    + apply cs_eq_iff in E1. destruct E1 as (H1 & H2 & H3 & H4).
      assert (H : CSGameCurrentState.__eq__ o (CSObj s) = true).
      { apply cs_eq_iff. repeat split; auto using Permutation_sym. }
      congruence.
    + apply cs_eq_iff in E2. destruct E2 as (H1 & H2 & H3 & H4).
      assert (H : CSGameCurrentState.__eq__ s (CSObj o) = true).
      { apply cs_eq_iff. repeat split; auto using Permutation_sym. }
      congruence.
  - intros s o u H1 H2. apply cs_eq_iff in H1, H2. apply cs_eq_iff.
    destruct H1 as (A1 & A2 & A3 & A4), H2 as (B1 & B2 & B3 & B4).
    repeat split; try congruence; eapply Permutation_trans; eassumption.
Qed.

Lemma state_eq_is_equivalence_witness :
  let s := CS.mk true [1; 1; 2; 1] ["ll"; "lr"]%string [] in
  let o := CS.mk true [1; 1; 2; 1] ["lr"; "ll"]%string [] in
  CSGameCurrentState.__eq__ s (CSObj o) = true
  /\ CSGameCurrentState.__eq__ o (CSObj s) = true.
Proof.
  cbv zeta. split; [reflexivity |].
  destruct state_eq_is_equivalence as (_ & _ & _ & _ & Hsym & _).
  rewrite Hsym. reflexivity.
Defined.

(** X14: equal chopsticks states stay equal under the same call of
    [make_move]: the two calls raise together, or return states that are
    [==], whatever the string and however the cached lists are ordered. *)
Theorem cs_make_move_respects_eq (s o : CS.state) (m : string) :
  CSGameCurrentState.__eq__ s (CSObj o) = true ->
  match CSGameCurrentState.make_move s m,
        CSGameCurrentState.make_move o m with
  | Ok s', Ok o' => CSGameCurrentState.__eq__ s' (CSObj o') = true
  | Raise e, Raise e' => e = e'
  | _, _ => False
  end.
Proof.
  intros H. apply cs_eq_iff in H. destruct H as (Ht & Hv & Hp1 & Hp2).
  destruct s as [t v c1 c2], o as [t' v' c1' c2']. cbn in Ht, Hv, Hp1, Hp2.
  subst t' v'. unfold CSGameCurrentState.make_move.
  cbn [CS.is_p1_turn CS.current_value CS.possible_moves_p1
       CS.possible_moves_p2].
  destruct (getitem v 0) as [a | e]; [| reflexivity].
  destruct (getitem v 1) as [b | e]; [| reflexivity].
  destruct (getitem v 2) as [c | e]; [| reflexivity].
  destruct (getitem v 3) as [d | e]; [| reflexivity].
  unfold CSGameCurrentState.get_current_player_name, player_name.
  destruct t;
    cbn -[CSGameCurrentState.get_possible_moves CSGameCurrentState.__eq__];
    match goal with
    | |- context [CSGameCurrentState.get_possible_moves
                    (CS.mk ?nt ?nv c1' c2')] =>
        change (CSGameCurrentState.get_possible_moves (CS.mk nt nv c1' c2'))
          with (CSGameCurrentState.get_possible_moves (CS.mk nt nv c1 c2));
        destruct (CSGameCurrentState.get_possible_moves (CS.mk nt nv c1 c2))
          as [moves | e]
    end; try reflexivity;
    cbn -[CSGameCurrentState.__eq__]; apply cs_eq_iff; cbn;
    repeat split; auto.
Qed.

Lemma cs_make_move_respects_eq_witness :
  let s := CS.mk true [1; 1; 2; 1] ["ll"; "lr"]%string [] in
  let o := CS.mk true [1; 1; 2; 1] ["lr"; "ll"]%string [] in
  CSGameCurrentState.__eq__ s (CSObj o) = true
  /\ CSGameCurrentState.__eq__
       (CS.mk false [1; 1; 3; 1] ["ll"; "lr"]%string canonical_moves)
       (CSObj (CS.mk false [1; 1; 3; 1] ["lr"; "ll"]%string canonical_moves))
     = true.
Proof.
  cbv zeta. split; [reflexivity |].
  exact (cs_make_move_respects_eq
           (CS.mk true [1; 1; 2; 1] ["ll"; "lr"]%string [])
           (CS.mk true [1; 1; 2; 1] ["lr"; "ll"]%string [])
           "ll"%string eq_refl).
Defined.

Section ChopsticksCycle.

Lemma cs_play_app (l1 l2 : list string) :
  forall s s1, cs_play s l1 = Some s1 ->
               cs_play s (l1 ++ l2) = cs_play s1 l2.
Proof.
  induction l1 as [| m l1 IH]; intros s s1 H; cbn in *.
  - now injection H as <-.
  - destruct (CSGameCurrentState.is_valid_move s m) as [[|] |];
      try discriminate.
    destruct (CSGameCurrentState.make_move s m) as [s' |];
      try discriminate.
    now apply IH.
Qed.

Lemma cs_play_repeat (s : CS.state) (loop : list string) (n : nat) :
  cs_play s loop = Some s ->
  cs_play s (List.concat (repeat loop n)) = Some s.
Proof.
  intros H. induction n as [| n IH]; cbn; [reflexivity |].
  now rewrite (cs_play_app loop _ s s H).
Qed.

End ChopsticksCycle.

(** X15: unlike subtract square, chopsticks need not end: legal play can
    come back to a state it has left, so from a fresh game there are
    sequences of legal moves of every length. *)
Theorem cs_legal_play_unbounded :
  (exists s loop,
      cs_reachable s /\ loop <> [] /\ cs_play s loop = Some s)
  /\ forall n : nat,
       exists moves s,
         cs_play (CSGameCurrentState.__init__ true) moves = Some s
         /\ (n <= List.length moves)%nat.
Proof.
  pose (s := CS.mk true [3; 1; 2; 1] canonical_moves canonical_moves).
  pose (loop := ["lr"; "rl"; "lr"; "rl"]%string).
  assert (Hstart : cs_play (CSGameCurrentState.__init__ true)
                     ["ll"; "ll"]%string = Some s)
    by (vm_compute; reflexivity).
  assert (Hloop : cs_play s loop = Some s) by (vm_compute; reflexivity).
  split.
  - exists s, loop. split; [| split; [discriminate | exact Hloop]].
    exact (cs_play_from_start true _ s Hstart).
  - intros n. exists (["ll"; "ll"]%string ++ List.concat (repeat loop n)), s.
    split.
    + rewrite (cs_play_app _ _ _ s Hstart). now apply cs_play_repeat.
    + rewrite length_app. clear.
      assert (H : List.length (List.concat (repeat loop n)) = (4 * n)%nat).
      { induction n as [| n IH]; [reflexivity |].
        cbn [repeat List.concat]. rewrite length_app, IH. cbn. lia. }
      rewrite H. cbn. lia.
Qed.

(* ================================================================== *)
(** ** Further properties: the game wrappers and the strategies        *)
(* ================================================================== *)

Section Sanitising.
Import ChopsticksGame.

Lemma str_to_move_loop_filter (move acc : string) :
  str_to_move_loop acc move
  = (acc ++ string_of_list_ascii
              (filter kept (list_ascii_of_string move)))%string.
Proof.
  revert acc. induction move as [| c move IH]; intros acc;
    cbn [str_to_move_loop list_ascii_of_string filter].
  - cbn. clear. induction acc as [| a acc IH]; cbn; [reflexivity | now f_equal].
  - unfold kept at 1.
    destruct (contains Ascii.eqb c unwanted); cbn [negb string_of_list_ascii].
    + apply IH.
    + rewrite IH. clear.
      induction acc as [| a acc IH]; cbn; [reflexivity | now f_equal].
Qed.

Lemma list_ascii_of_string_of_list (l : list ascii) :
  list_ascii_of_string (string_of_list_ascii l) = l.
Proof. apply list_ascii_of_string_of_list_ascii. Qed.

Lemma string_of_list_ascii_app (l1 l2 : list ascii) :
  string_of_list_ascii (l1 ++ l2)
  = (string_of_list_ascii l1 ++ string_of_list_ascii l2)%string.
Proof. induction l1 as [| c l1 IH]; cbn; [reflexivity | now rewrite IH]. Qed.

Lemma filter_id {A} (f : A -> bool) (l : list A) :
  (forall x, In x l -> f x = true) -> filter f l = l.
Proof.
  induction l as [| x l IH]; cbn; intros H; [reflexivity |].
  rewrite (H x (or_introl eq_refl)). f_equal. apply IH. auto.
Qed.

Lemma filter_idem {A} (f : A -> bool) (l : list A) :
  filter f (filter f l) = filter f l.
Proof.
  apply filter_id. intros x Hx. now apply filter_In in Hx.
Qed.

End Sanitising.

Lemma kept_iff (c : ascii) : kept c = true <-> ~ In c ChopsticksGame.unwanted.
Proof.
  unfold kept, contains. rewrite negb_true_iff, <- not_true_iff_false,
    existsb_exists.
  split; intros H.
  - intros Hin. apply H. exists c. split; [exact Hin | apply Ascii.eqb_refl].
  - intros (x & Hin & E). apply Ascii.eqb_eq in E. subst x. auto.
Qed.

(** X16: the chopsticks game's [str_to_move] drops the blanks, hyphens,
    underscores, plus signs and slashes of the typed move and keeps every
    other character, in order.  So its result holds none of the five, a
    string free of them comes back as it is, cleaning twice is cleaning
    once, and cleaning a concatenation is concatenating the cleaned
    parts. *)
Theorem cs_str_to_move_strips_separators (g : ChopsticksGame.game) :
  (forall move,
      list_ascii_of_string (ChopsticksGame.str_to_move g move)
      = filter kept (list_ascii_of_string move))
  /\ (forall move c,
        In c (list_ascii_of_string (ChopsticksGame.str_to_move g move)) ->
        In c (list_ascii_of_string move) /\ ~ In c ChopsticksGame.unwanted)
  /\ (forall move,
        (forall c, In c (list_ascii_of_string move) ->
                   ~ In c ChopsticksGame.unwanted) ->
        ChopsticksGame.str_to_move g move = move)
  /\ (forall move,
        ChopsticksGame.str_to_move g (ChopsticksGame.str_to_move g move)
        = ChopsticksGame.str_to_move g move)
  /\ (forall a b,
        ChopsticksGame.str_to_move g (a ++ b)
        = (ChopsticksGame.str_to_move g a
           ++ ChopsticksGame.str_to_move g b)%string).
Proof.
  assert (E : forall move,
             ChopsticksGame.str_to_move g move
             = string_of_list_ascii (filter kept (list_ascii_of_string move))).
  { intros move. unfold ChopsticksGame.str_to_move.
    now rewrite str_to_move_loop_filter. }
  split; [| split; [| split; [| split]]].
  - intros move. now rewrite E, list_ascii_of_string_of_list.
  - intros move c. rewrite E, list_ascii_of_string_of_list.
    intros H. apply filter_In in H. destruct H as [Hin Hk].
    split; [exact Hin | now apply kept_iff].
  - intros move H. rewrite E, filter_id.
    + apply string_of_list_ascii_of_string.
    + intros c Hc. apply kept_iff. now apply H.
  - intros move. rewrite (E (ChopsticksGame.str_to_move g move)), E.
    now rewrite list_ascii_of_string_of_list, filter_idem.
  - intros a b. rewrite !E, list_ascii_of_string_app, filter_app.
    apply string_of_list_ascii_app.
Qed.

Lemma cs_str_to_move_strips_separators_witness :
  ChopsticksGame.str_to_move (ChopsticksGame.__init__ true) "l -r"
  = "lr"%string
  /\ ChopsticksGame.str_to_move (ChopsticksGame.__init__ true) "l?r"
     = "l?r"%string.
Proof.
  split; [reflexivity |].
  apply (proj1 (proj2 (proj2
           (cs_str_to_move_strips_separators (ChopsticksGame.__init__ true))))).
  intros c Hc Hin. cbn in Hc, Hin.
  destruct Hc as [<- | [<- | [<- | []]]];
    destruct Hin as [E | [E | [E | [E | [E | []]]]]]; discriminate.
Defined.

(** X17: [is_over] answers that the game is over exactly when
    [is_valid_move] refuses every move; for the subtraction game this
    needs the cached list of the state to be up to date, since
    [is_valid_move] reads the cache and [is_over] recomputes the list. *)
Theorem is_over_iff_no_valid_move :
  (forall s : SS.state,
      SS.possible_moves_list s = SSGameCurrentState.get_possible_moves s ->
      (is_over (inl s) = Ok true <->
       forall m, SSGameCurrentState.is_valid_move s m = false))
  /\ (forall s : CS.state,
        is_over (inr s) = Ok true <->
        forall m, CSGameCurrentState.is_valid_move s m = Ok false).
Proof.
  split.
  - intros s Hc. unfold SSGameCurrentState.is_valid_move. rewrite Hc.
    cbn [is_over].
    destruct (SSGameCurrentState.get_possible_moves s) as [| x l]; cbn.
    + split; auto.
    + split; [discriminate |]. intros H. specialize (H x).
      now rewrite Z.eqb_refl in H.
  - intros s. unfold CSGameCurrentState.is_valid_move. cbn [is_over].
    destruct (CSGameCurrentState.get_possible_moves s) as [[| x l] | e]; cbn.
    + split; auto.
    + split; [discriminate |]. intros H. specialize (H x).
      now rewrite String.eqb_refl in H.
    + split; [discriminate |]. intros H. specialize (H EmptyString).
      discriminate.
Qed.

Lemma is_over_iff_no_valid_move_witness :
  SS.possible_moves_list (SS.mk true 0 [])
  = SSGameCurrentState.get_possible_moves (SS.mk true 0 [])
  /\ forall m, SSGameCurrentState.is_valid_move (SS.mk true 0 []) m = false.
Proof.
  split; [reflexivity |].
  apply (proj1 is_over_iff_no_valid_move (SS.mk true 0 []) eq_refl).
  reflexivity.
Defined.

(** X18: at a finished game [is_winner] names exactly one of ['p1'] and
    ['p2'], the one who is not to move; it does not check its argument,
    and answers true for every other string as well. *)
Theorem is_winner_at_finished_game :
  (forall g : SubtractSquareGame.game,
      SS.possible_moves_list (SubtractSquareGame.current_state g) = [] ->
      SubtractSquareGame.is_winner g "p1"
      = negb (SS.is_p1_turn (SubtractSquareGame.current_state g))
      /\ SubtractSquareGame.is_winner g "p2"
         = SS.is_p1_turn (SubtractSquareGame.current_state g)
      /\ forall p, p <> "p1"%string -> p <> "p2"%string ->
                   SubtractSquareGame.is_winner g p = true)
  /\ (forall g : ChopsticksGame.game,
        CSGameCurrentState.get_possible_moves
          (ChopsticksGame.current_state g) = Ok [] ->
        ChopsticksGame.is_winner g "p1"
        = Ok (negb (CS.is_p1_turn (ChopsticksGame.current_state g)))
        /\ ChopsticksGame.is_winner g "p2"
           = Ok (CS.is_p1_turn (ChopsticksGame.current_state g))
        /\ forall p, p <> "p1"%string -> p <> "p2"%string ->
                     ChopsticksGame.is_winner g p = Ok true).
Proof.
  split; intros g H.
  - unfold SubtractSquareGame.is_winner. rewrite H. cbn.
    repeat split.
    + now destruct (SS.is_p1_turn (SubtractSquareGame.current_state g)).
    + now destruct (SS.is_p1_turn (SubtractSquareGame.current_state g)).
    + intros p H1 H2. apply String.eqb_neq in H1, H2.
      destruct (SS.is_p1_turn (SubtractSquareGame.current_state g));
        now rewrite ?H1, ?H2.
  - unfold ChopsticksGame.is_winner. rewrite H. cbn.
    repeat split.
    + now destruct (CS.is_p1_turn (ChopsticksGame.current_state g)).
    + now destruct (CS.is_p1_turn (ChopsticksGame.current_state g)).
    + intros p H1 H2. apply String.eqb_neq in H1, H2.
      destruct (CS.is_p1_turn (ChopsticksGame.current_state g));
        now rewrite ?H1, ?H2.
Qed.

Lemma is_winner_at_finished_game_witness :
  let g := SubtractSquareGame.mk true (SS.mk false 0 []) in
  SS.possible_moves_list (SubtractSquareGame.current_state g) = []
  /\ SubtractSquareGame.is_winner g "nobody" = true.
Proof.
  cbv zeta. split; [reflexivity |].
  destruct (proj1 is_winner_at_finished_game
              (SubtractSquareGame.mk true (SS.mk false 0 [])) eq_refl)
    as (_ & _ & H).
  apply H; discriminate.
Defined.

Section RandomStrategy.
Import Strategy.

Lemma index_in_range {A} (l : list A) (r : Z) :
  0 <= r <= Z.of_nat (List.length l) - 1 ->
  exists x, index l r = Ok x /\ In x l.
Proof.
  intros Hr. unfold index.
  assert (E1 : (r <? 0) = false) by (apply Z.ltb_ge; lia).
  assert (E2 : (0 <=? r) = true) by (apply Z.leb_le; lia).
  assert (E3 : (r <? Z.of_nat (List.length l)) = true)
    by (apply Z.ltb_lt; lia).
  rewrite E1, E2, E3. cbn. unfold getitem.
  destruct (nth_error l (Z.to_nat r)) as [x |] eqn:E.
  - exists x. split; [reflexivity |]. now apply nth_error_In in E.
  - apply nth_error_None in E. lia.
Qed.

Lemma choose_outcome {A} (l : list A) (out : result A) :
  choose l out ->
  (exists x, out = Ok x /\ In x l) \/ (out = Raise ValueError /\ l = []).
Proof.
  intros [r Hr]. destruct Hr as [r Hr | Hempty]; cbn.
  - left. apply index_in_range, Hr.
  - right. split; [reflexivity |]. destruct l; [reflexivity | cbn [List.length] in Hempty; lia].
Qed.

Lemma choose_every_move {A} (l : list A) (x : A) :
  In x l -> choose l (Ok x).
Proof.
  intros Hin. apply In_nth_error in Hin. destruct Hin as [i Hi].
  assert (Hlt : (i < List.length l)%nat).
  { apply nth_error_Some. congruence. }
  assert (E : (j <- Ok (Z.of_nat i) ;; index l j) = Ok x).
  { cbn. unfold index.
    assert (E1 : (Z.of_nat i <? 0) = false) by (apply Z.ltb_ge; lia).
    assert (E2 : (0 <=? Z.of_nat i) = true) by (apply Z.leb_le; lia).
    assert (E3 : (Z.of_nat i <? Z.of_nat (List.length l)) = true)
      by (apply Z.ltb_lt; lia).
    rewrite E1, E2, E3. cbn. unfold getitem.
    now rewrite Nat2Z.id, Hi. }
  rewrite <- E. constructor. constructor. lia.
Qed.

End RandomStrategy.

(** X19: the random strategy.  Whatever index [randint] draws,
    [current_strategy] returns a move that [is_valid_move] accepts, and
    every legal move can be drawn.  When the game is over the range of
    [randint] is empty and the call raises [ValueError].  (For the
    subtraction game the cached list of the state has to be up to date;
    for chopsticks an [IndexError] of [get_possible_moves] passes
    through.) *)
Theorem current_strategy_draws_legal_moves :
  (forall (g : SubtractSquareGame.game) (out : result Z),
      SS.possible_moves_list (SubtractSquareGame.current_state g)
      = SSGameCurrentState.get_possible_moves
          (SubtractSquareGame.current_state g) ->
      Strategy.current_strategy_ss g out ->
      match out with
      | Ok m => SSGameCurrentState.is_valid_move
                  (SubtractSquareGame.current_state g) m = true
      | Raise e => e = ValueError
                   /\ is_over (inl (SubtractSquareGame.current_state g))
                      = Ok true
      end)
  /\ (forall (g : SubtractSquareGame.game) (m : Z),
        In m (SSGameCurrentState.get_possible_moves
                (SubtractSquareGame.current_state g)) ->
        Strategy.current_strategy_ss g (Ok m))
  /\ (forall (g : ChopsticksGame.game) (out : result string),
        Strategy.current_strategy_cs g out ->
        match out with
        | Ok m => CSGameCurrentState.is_valid_move
                    (ChopsticksGame.current_state g) m = Ok true
        | Raise e => (e = ValueError
                      /\ is_over (inr (ChopsticksGame.current_state g))
                         = Ok true)
                     \/ CSGameCurrentState.get_possible_moves
                          (ChopsticksGame.current_state g) = Raise e
        end)
  /\ (forall (g : ChopsticksGame.game) (m : string),
        CSGameCurrentState.is_valid_move (ChopsticksGame.current_state g) m
        = Ok true ->
        Strategy.current_strategy_cs g (Ok m)).
Proof.
  split; [| split; [| split]].
  - intros g out Hc Hout. unfold Strategy.current_strategy_ss in Hout.
    apply choose_outcome in Hout.
    destruct Hout as [(x & -> & Hin) | [-> Hnil]].
    + unfold SSGameCurrentState.is_valid_move. rewrite Hc.
      now apply contains_Z_In.
    + split; [reflexivity |]. cbn [is_over]. now rewrite Hnil.
  - intros g m Hin. now apply choose_every_move.
  - intros g out Hout. unfold Strategy.current_strategy_cs in Hout.
    destruct (CSGameCurrentState.get_possible_moves
                (ChopsticksGame.current_state g)) as [moves | e] eqn:E.
    + apply choose_outcome in Hout.
      destruct Hout as [(x & -> & Hin) | [-> Hnil]].
      * apply is_valid_move_In. now exists moves.
      * left. split; [reflexivity |]. cbn [is_over]. rewrite E, Hnil.
        reflexivity.
    + subst out. now right.
  - intros g m Hv. apply is_valid_move_In in Hv.
    destruct Hv as (moves & E & Hin).
    unfold Strategy.current_strategy_cs. rewrite E.
    now apply choose_every_move.
Qed.

Lemma current_strategy_draws_legal_moves_witness :
  let g := ChopsticksGame.__init__ true in
  CSGameCurrentState.is_valid_move (ChopsticksGame.current_state g) "rl"
  = Ok true
  /\ Strategy.current_strategy_cs g (Ok "rl"%string).
Proof.
  cbv zeta. split; [reflexivity |].
  apply (proj2 (proj2 (proj2 current_strategy_draws_legal_moves))).
  reflexivity.
Defined.

Lemma str_of_int_one_digit (x : Z) :
  0 <= x <= 4 -> exists ch, str_of_int x = Ok (String ch EmptyString).
Proof.
  intros H.
  assert (Hc : x = 0 \/ x = 1 \/ x = 2 \/ x = 3 \/ x = 4) by lia.
  destruct Hc as [-> | [-> | [-> | [-> | ->]]]]; eexists; reflexivity.
Qed.

(** X20: the line that [__str__] prints for a chopsticks state whose four
    hands are within 0..4 (every state that [make_move] builds from a
    fresh game) tells the player to move and the four hands: two such
    states with the same line have the same active player and the same
    hands. *)
Theorem cs_str_determines_turn_and_hands (s1 s2 : CS.state) (line : string) :
  four_hands s1 -> hands_in_range s1 ->
  four_hands s2 -> hands_in_range s2 ->
  CSGameCurrentState.__str__ s1 = Ok line ->
  CSGameCurrentState.__str__ s2 = Ok line ->
  CS.is_p1_turn s1 = CS.is_p1_turn s2
  /\ CS.current_value s1 = CS.current_value s2.
Proof.
  intros H41 Hr1 H42 Hr2.
  destruct (four_hands_inv s1 H41) as (a1 & b1 & c1 & d1 & E1).
  destruct (four_hands_inv s2 H42) as (a2 & b2 & c2 & d2 & E2).
  unfold hands_in_range in Hr1, Hr2. rewrite E1 in Hr1. rewrite E2 in Hr2.
  repeat match goal with
         | H : Forall _ (_ :: _) |- _ => inversion H; subst; clear H
         | H : Forall _ [] |- _ => clear H
         end.
  unfold CSGameCurrentState.__str__. rewrite E1, E2. cbn [getitem nth_error Py.bind].
  repeat match goal with
         | H : 0 <= ?x <= 4 |- _ =>
             let ch := fresh "ch" in
             let Hch := fresh "Hch" in
             pose proof (str_of_int_one_digit x H) as [ch Hch]; clear H
         end.
  assert (Hinj : forall x y k, str_of_int x = Ok (String k EmptyString) ->
                               str_of_int y = Ok (String k EmptyString) ->
                               x = y).
  { intros x y k Hx Hy. exact (str_of_int_inj x y _ Hx Hy). }
  repeat match goal with
         | H : str_of_int _ = Ok _ |- _ => rewrite H; revert H
         end.
  intros.
  destruct (CS.is_p1_turn s1), (CS.is_p1_turn s2); cbn in *;
    match goal with
    | Ha : Ok _ = Ok line, Hb : Ok _ = Ok line |- _ =>
        rewrite <- Hb in Ha; injection Ha as Ha
    end; try discriminate;
    (split; [reflexivity |]);
    repeat match goal with
           | H : String _ _ = String _ _ |- _ => injection H as ? H
           end; subst;
    repeat f_equal; eapply Hinj; eassumption.
Qed.

Lemma cs_str_determines_turn_and_hands_witness :
  let s1 := CSGameCurrentState.__init__ true in
  let s2 := CS.mk true [1; 1; 1; 1] [] [] in
  CSGameCurrentState.__str__ s1
  = Ok "Player 1 [Current]: 1-1; Player 2: 1-1"%string
  /\ CSGameCurrentState.__str__ s2
     = Ok "Player 1 [Current]: 1-1; Player 2: 1-1"%string
  /\ CS.current_value s1 = CS.current_value s2.
Proof.
  cbv zeta. split; [reflexivity |]. split; [reflexivity |].
  assert (Hr : forall c1 c2, hands_in_range (CS.mk true [1; 1; 1; 1] c1 c2)).
  { intros c1 c2. unfold hands_in_range. cbn. repeat constructor; lia. }
  exact (proj2 (cs_str_determines_turn_and_hands
                  (CSGameCurrentState.__init__ true)
                  (CS.mk true [1; 1; 1; 1] [] [])
                  "Player 1 [Current]: 1-1; Player 2: 1-1"%string
                  eq_refl (Hr _ _) eq_refl (Hr _ _) eq_refl eq_refl)).
Defined.

(** X21: the chopsticks state reads its hands at the positions 0 to 3 of
    [current_value].  With fewer than four entries [get_possible_moves],
    [is_valid_move] and [make_move] raise [IndexError]; with four or more
    they succeed on every string, [get_possible_moves] lists canonical
    moves only, so that [is_valid_move] refuses every other string, and
    [make_move] returns a state of exactly four hands. *)
Theorem cs_hands_index_bounds (s : CS.state) (m : string) :
  ((List.length (CS.current_value s) < 4)%nat ->
   CSGameCurrentState.get_possible_moves s = Raise IndexError
   /\ CSGameCurrentState.is_valid_move s m = Raise IndexError
   /\ CSGameCurrentState.make_move s m = Raise IndexError)
  /\ ((4 <= List.length (CS.current_value s))%nat ->
      (exists moves,
          CSGameCurrentState.get_possible_moves s = Ok moves
          /\ incl moves canonical_moves
          /\ CSGameCurrentState.is_valid_move s m
             = Ok (contains String.eqb m moves))
      /\ (~ In m canonical_moves ->
          CSGameCurrentState.is_valid_move s m = Ok false)
      /\ exists s', CSGameCurrentState.make_move s m = Ok s'
                    /\ four_hands s').
Proof.
  split.
  - intros Hlt.
    unfold CSGameCurrentState.is_valid_move, CSGameCurrentState.make_move,
      CSGameCurrentState.get_possible_moves.
    destruct (CS.current_value s) as [| a [| b [| c [| d l]]]];
      cbn in *; try lia; auto.
  - intros Hge.
    assert (Hgpm : exists moves,
               CSGameCurrentState.get_possible_moves s = Ok moves).
    { unfold CSGameCurrentState.get_possible_moves.
      destruct (CS.current_value s) as [| a [| b [| c [| d l]]]];
        cbn in *; try lia. eexists. reflexivity. }
    destruct Hgpm as [moves Hmoves].
    pose proof (get_possible_moves_canonical s moves Hmoves) as Hincl.
    assert (Hvalid : CSGameCurrentState.is_valid_move s m
                     = Ok (contains String.eqb m moves)).
    { unfold CSGameCurrentState.is_valid_move. now rewrite Hmoves. }
    split; [| split].
    + exists moves. auto.
    + intros Hnot. rewrite Hvalid. f_equal.
      apply not_true_is_false. intros Hc. apply contains_string_In in Hc.
      apply Hnot, Hincl, Hc.
    + destruct (make_move_default s m) as (m' & Hin & ->).
      unfold CSGameCurrentState.make_move, four_hands,
        CSGameCurrentState.get_current_player_name, player_name.
      destruct (CS.current_value s) as [| a [| b [| c [| d l]]]];
        cbn in Hge; try lia.
      cbn in Hin.
      destruct (CS.is_p1_turn s);
        destruct Hin as [<- | [<- | [<- | [<- | []]]]];
        cbn; eexists; (split; [reflexivity | reflexivity]).
Qed.

Lemma cs_hands_index_bounds_witness :
  let s := CS.mk true [1; 1; 1] canonical_moves canonical_moves in
  (List.length (CS.current_value s) < 4)%nat
  /\ CSGameCurrentState.make_move s "ll" = Raise IndexError.
Proof.
  cbv zeta. split; [cbn; lia |].
  apply (proj1 (cs_hands_index_bounds
                  (CS.mk true [1; 1; 1] canonical_moves canonical_moves)
                  "ll"%string)).
  cbn. lia.
Defined.
